(** * Retention policy of [scripts/cleanup-old-packages.py]

    A shallow embedding of the priority classifier and of the grouped
    eviction loop of [cleanup_packages], with the properties the
    specification states about them.

    Conventions of the embedding.
    - A Python [str] is a Rocq [string]: a sequence of code points below
      256.  On that range the class [\d] of Python's [re] is exactly the
      ten characters ['0'] .. ['9'], and [==] and [<] on [str] are equality
      and the lexicographic order of the code points.
    - A Python [int] is a [Z].
    - A file of the registry is a [dict]; the script adds the key
      ["cleanup_priority"] to it in place.  The record [File] holds the
      keys the script reads, the added key as an [option].  The dicts are
      shared between [files] and [files_by_version]: the classifier works
      on a store of dicts addressed by their position in [files].
    - The registry and the operator are the environment of the loop: the
      calls made to them are recorded in a trace, and the operator's answers
      are a function of the number of the question. *)

From stdpp Require Import gmap strings list fin_maps sorting.
From Stdlib Require Import ZArith Lia.
From Stdlib Require Import Ascii.
From Stdlib Require String.

Local Open Scope Z_scope.

(* [naive_solver] clears hypotheses that may be gone already. *)
#[local] Set Warnings "-clear-no-such-hyp".

(** ** Regular expressions, as far as [is_dev_version] needs them *)

Module Re.

Inductive regex : Type :=
| Void                        (* matches nothing *)
| Eps                         (* the empty string *)
| Class (p : ascii → bool)    (* one character of a class *)
| Seq (r1 r2 : regex)
| Alt (r1 r2 : regex)
| Star (r : regex).

Definition Plus (r : regex) : regex := Seq r (Star r).      (* r+ *)
Definition Opt (r : regex) : regex := Alt r Eps.            (* r? *)
Definition Chr (c : ascii) : regex := Class (Ascii.eqb c).  (* a literal *)

Fixpoint Lit (s : string) : regex :=
  match s with
  | EmptyString => Eps
  | String c s' => Seq (Chr c) (Lit s')
  end.

(** [\d] on code points below 256. *)
Definition digit (c : ascii) : bool :=
  (N.leb 48 (N_of_ascii c) && N.leb (N_of_ascii c) 57)%bool.

(** The language of a regular expression. *)
Inductive matches : regex → string → Prop :=
| MEps : matches Eps ""
| MClass p c : p c = true → matches (Class p) (String c "")
| MSeq r1 r2 s1 s2 :
    matches r1 s1 → matches r2 s2 → matches (Seq r1 r2) (s1 +:+ s2)
| MAltL r1 r2 s : matches r1 s → matches (Alt r1 r2) s
| MAltR r1 r2 s : matches r2 s → matches (Alt r1 r2) s
| MStar0 r : matches (Star r) ""
| MStarS r s1 s2 :
    matches r s1 → matches (Star r) s2 → matches (Star r) (s1 +:+ s2).

Fixpoint nullable (r : regex) : bool :=
  match r with
  | Void => false
  | Eps => true
  | Class _ => false
  | Seq r1 r2 => nullable r1 && nullable r2
  | Alt r1 r2 => nullable r1 || nullable r2
  | Star _ => true
  end.

(** Brzozowski derivative. *)
Fixpoint deriv (c : ascii) (r : regex) : regex :=
  match r with
  | Void => Void
  | Eps => Void
  | Class p => if p c then Eps else Void
  | Seq r1 r2 =>
      if nullable r1 then Alt (Seq (deriv c r1) r2) (deriv c r2)
      else Seq (deriv c r1) r2
  | Alt r1 r2 => Alt (deriv c r1) (deriv c r2)
  | Star r1 => Seq (deriv c r1) (Star r1)
  end.

(** [match_at_start r s]: some prefix of [s] is in the language of [r].
    This is [bool(re.search("^" + r, s))]: without [re.MULTILINE] the
    anchor [^] holds at position 0 only, and nothing anchors the end. *)
Fixpoint match_at_start (r : regex) (s : string) : bool :=
  nullable r ||
  match s with
  | EmptyString => false
  | String c s' => match_at_start (deriv c r) s'
  end.

End Re.

(** ** Helpers of the script *)

(** [r"^\d+\.\d+\.\d+\.?(dev|rc)\d+"] without its anchor. *)
Definition dev_version_re : Re.regex :=
  Re.Seq (Re.Plus (Re.Class Re.digit))
 (Re.Seq (Re.Chr ".")
 (Re.Seq (Re.Plus (Re.Class Re.digit))
 (Re.Seq (Re.Chr ".")
 (Re.Seq (Re.Plus (Re.Class Re.digit))
 (Re.Seq (Re.Opt (Re.Chr "."))
 (Re.Seq (Re.Alt (Re.Lit "dev") (Re.Lit "rc"))
         (Re.Plus (Re.Class Re.digit)))))))).

Definition is_dev_version (version : string) : bool :=
  Re.match_at_start dev_version_re version.

(** The ["attrs"] of a file.  A conda package carries ["build_number"], an
    [int]; a wheel carries ["build_no"], a numeric string, held here by the
    integer [int(...)] reads from it.  A key that is absent is [None]; a
    value that is no number is outside the model. *)
Record Attrs : Type := mkAttrs {
  attr_build_number : option Z;
  attr_build_no : option Z
}.

(** One file of the registry: the keys of its [dict] the script reads, and
    the key the classifier adds. *)
Record File : Type := mkFile {
  file_version : string;
  file_attrs : option Attrs;
  file_size : Z;
  file_upload_time : string;
  file_labels : list string;
  file_full_name : string;
  cleanup_priority : option Z
}.

(** [package = aserver_api.package(...)]: the snapshot of the registry. *)
Record Package : Type := mkPackage {
  pkg_versions : list string;
  pkg_files : list File
}.

(** [file.get("attrs", {}).get(key, 0)] *)
Definition attr_get (key : Attrs → option Z) (file : File) : Z :=
  match file_attrs file with
  | Some a => default 0 (key a)
  | None => 0
  end.

(** The larger of ["build_number"] and [int] of ["build_no"]. *)
Definition build_number (file : File) : Z :=
  Z.max (attr_get attr_build_number file) (attr_get attr_build_no file).

(** [max(map(build_number, files), default=0)] *)
Definition max_build (files : list File) : Z :=
  match build_number <$> files with
  | [] => 0
  | b :: bs => fold_left Z.max bs b
  end.

(** ** The classifier *)

(** [files = list(filter(lambda a: label in a["labels"], files))] *)
Definition filter_label (label : option string) (files : list File)
  : list File :=
  match label with
  | None => files
  | Some l => filter (λ a, l ∈ file_labels a) files
  end.

(** [files_by_version[f["version"]].append(f)] on a [defaultdict]: a key that
    is not there yet reads as the empty list.  The map holds references: the
    positions in [files] of the dicts. *)
Definition group_append (m : gmap string (list nat)) (v : string) (i : nat)
  : gmap string (list nat) :=
  <[v := default [] (m !! v) ++ [i]]> m.

Definition files_by_version (files : list File) : gmap string (list nat) :=
  fold_left (λ m '(i, f), group_append m (file_version f) i)
            (imap pair files) ∅.

(** The scan for [last_dev]. *)
Definition last_dev_of (versions : list string) : option string :=
  fold_left (λ last_dev v, if is_dev_version v then Some v else last_dev)
            versions None.

(** [sum(map(lambda f: f["size"], files))] *)
Definition total_size_of (files : list File) : Z :=
  fold_left Z.add (file_size <$> files) 0.

(** The body of the inner loop: the value of [prioity] for one file. *)
Definition priority_of (is_dev : bool) (mbd : Z) (last_dev : option string)
    (file : File) : Z :=
  if build_number file =? mbd then
    if is_dev && negb (bool_decide (Some (file_version file) = last_dev))
    then 2 else 4
  else if is_dev && bool_decide (Some (file_version file) = last_dev) then 3
  else if is_dev then 0
  else 1.

(** [file["cleanup_priority"] = prioity] *)
Definition set_cleanup_priority (p : Z) (file : File) : File :=
  {| file_version := file_version file;
     file_attrs := file_attrs file;
     file_size := file_size file;
     file_upload_time := file_upload_time file;
     file_labels := file_labels file;
     file_full_name := file_full_name file;
     cleanup_priority := Some p |}.

(** One round of [for version in versions], on the store of dicts. *)
Definition classify_version (fbv : gmap string (list nat))
    (last_dev : option string) (store : list File) (version : string)
  : list File :=
  let is_dev := is_dev_version version in
  let group := default [] (fbv !! version) in
  let mbd := max_build (omap (λ i, store !! i) group) in
  fold_left
    (λ st i,
       alter (λ file,
                set_cleanup_priority (priority_of is_dev mbd last_dev file)
                                     file) i st)
    group store.

Definition classify (versions : list string) (files : list File)
  : list File :=
  fold_left (classify_version (files_by_version files) (last_dev_of versions))
            versions files.

(** ** Exceptions and results *)

Inductive exn : Type :=
| KeyError (key : string).

Inductive result (A : Type) : Type :=
| Ok (a : A)
| Raised (e : exn).
Arguments Ok {A} a.
Arguments Raised {A} e.

(** ** The sort of the queue *)

(** [itemgetter("cleanup_priority", "upload_time")] *)
Definition sort_key (file : File) : result (Z * string) :=
  match cleanup_priority file with
  | Some p => Ok (p, file_upload_time file)
  | None => Raised (KeyError "cleanup_priority")
  end.

(** [<] on the key tuples. *)
Definition key_lt (k1 k2 : Z * string) : bool :=
  (k1.1 <? k2.1) || ((k1.1 =? k2.1) && String.ltb k1.2 k2.2).

(** [list.sort] computes the key of every element first; an exception of a
    key aborts the sort. *)
Fixpoint decorate (files : list File) : result (list ((Z * string) * File)) :=
  match files with
  | [] => Ok []
  | f :: fs =>
      match sort_key f with
      | Raised e => Raised e
      | Ok k =>
          match decorate fs with
          | Raised e => Raised e
          | Ok l => Ok ((k, f) :: l)
          end
      end
  end.

(** [list.sort] is stable.  The stable sort of a list is unique; it is
    computed here by insertion: [x] stood before every element of [l] and
    goes before the first element that is not below it. *)
Fixpoint insert_by_key (x : (Z * string) * File)
    (l : list ((Z * string) * File)) : list ((Z * string) * File) :=
  match l with
  | [] => [x]
  | y :: l' =>
      if key_lt y.1 x.1 then y :: insert_by_key x l' else x :: y :: l'
  end.

Definition sort_decorated (l : list ((Z * string) * File))
  : list ((Z * string) * File) :=
  foldr insert_by_key [] l.

(** [files.sort(key=itemgetter("cleanup_priority", "upload_time"))] *)
Definition sort_files (files : list File) : result (list File) :=
  match decorate files with
  | Raised e => Raised e
  | Ok l => Ok (snd <$> sort_decorated l)
  end.

(** ** The eviction loop *)

(** The limits and flags [cleanup_packages] receives. *)
Record Config : Type := mkConfig {
  keep_count : option Z;
  max_size : option Z;
  max_priority : option Z;
  dry_run : bool;
  force : bool;
  verbose : bool
}.

(** What the loop does to its environment, in the order it happens: the
    questions to the operator, the calls of the registry, and the lines of
    [print_verbose] from the loop on.  The lines [print_verbose] writes before
    the loop (the versions, [last_dev], the total size, the priorities) are
    not recorded. *)
Inductive event : Type :=
| EvRemoving (full_name : string) (need_clean : bool)
    (* print_verbose(f"Removing {file['full_name']}", need_clean) *)
| EvBoolInput (full_name : string) (answer : bool)
    (* bool_input("Are you sure you want to remove file ... ?", False) *)
| EvRemoveDist (full_name : string)
    (* aserver_api.remove_dist(...) *)
| EvCleanedSize (cleanup_size : Z).
    (* print_verbose("Cleaned size:", cleanup_size) *)

(** The variables of the loop.  [asked] counts the questions put to the
    operator; [evicted] is a ghost variable, the files taken off the queue
    so far. *)
Record State : Type := mkState {
  files : list File;
  total_size : Z;
  last_version : option string;
  last_build : option Z;
  cleanup_size : Z;
  trace : list event;
  asked : nat;
  evicted : list File
}.

Definition initial_state (files : list File) (total_size : Z) : State :=
  {| files := files; total_size := total_size;
     last_version := None; last_build := None;
     cleanup_size := 0; trace := []; asked := 0; evicted := [] |}.

(** The three clauses of [need_clean]. *)
Definition over_size (cfg : Config) (total_size : Z) : bool :=
  match max_size cfg with
  | Some m => total_size >? m
  | None => false
  end.

Definition over_count (cfg : Config) (files : list File) : bool :=
  match keep_count cfg with
  | Some k => Z.of_nat (length files) >? k
  | None => false
  end.

(** [need_clean], with the short circuit of [or] and [and]: the priority of
    the file is read only when the size clause is false and [max_priority]
    is set. *)
Definition need_clean (cfg : Config) (total_size : Z) (files : list File)
    (file : File) : result bool :=
  if over_size cfg total_size then Ok true
  else
    match max_priority cfg with
    | Some mp =>
        match cleanup_priority file with
        | None => Raised (KeyError "cleanup_priority")
        | Some p => if p <=? mp then Ok true else Ok (over_count cfg files)
        end
    | None => Ok (over_count cfg files)
    end.

(** [last_version is None or
     (last_version != version or last_build != build)] *)
Definition other_group (s : State) (version : string) (build : Z) : bool :=
  match last_version s with
  | None => true
  | Some lv =>
      negb (bool_decide (lv = version))
      || negb (bool_decide (last_build s = Some build))
  end.

(** The calls of one removal: the line of [print_verbose], then, outside a
    dry run, the question (unless [force]) and the call of the registry.
    Returns the events and the number of questions asked. *)
Definition removal (cfg : Config) (answers : nat → bool) (asked : nat)
    (file : File) (nc : bool) : list event * nat :=
  let shown :=
    if (dry_run cfg || force cfg) && verbose cfg
    then [EvRemoving (file_full_name file) nc] else [] in
  if dry_run cfg then (shown, asked)
  else if force cfg then (shown ++ [EvRemoveDist (file_full_name file)], asked)
  else
    let a := answers asked in
    (shown ++ EvBoolInput (file_full_name file) a ::
       (if a then [EvRemoveDist (file_full_name file)] else []),
     S asked).

(** How one pass through [while len(files) > 0: ...] ends. *)
Inductive step : Type :=
| Exit (s : State)        (* the condition of the [while] is false *)
| Break (s : State)       (* [break] *)
| Continue (s : State)    (* the end of the body *)
| Raises (e : exn).

Definition loop_body (cfg : Config) (answers : nat → bool) (s : State)
  : step :=
  match files s with
  | [] => Exit s
  | file :: rest =>
      let version := file_version file in
      let build := build_number file in
      match need_clean cfg (total_size s) (files s) file with
      | Raised e => Raises e
      | Ok nc =>
          if negb nc && other_group s version build then
            Break {| files := files s; total_size := total_size s;
                     last_version := None; last_build := None;
                     cleanup_size := cleanup_size s; trace := trace s;
                     asked := asked s; evicted := evicted s |}
          else
            let '(evs, asked') := removal cfg answers (asked s) file nc in
            Continue {| files := rest;
                        total_size := total_size s - file_size file;
                        last_version := Some version;
                        last_build := Some build;
                        cleanup_size := cleanup_size s + file_size file;
                        trace := trace s ++ evs;
                        asked := asked';
                        evicted := evicted s ++ [file] |}
      end
  end.

Inductive outcome : Type :=
| Done (s : State)
| Error (e : exn)
| OutOfFuel.

(** The [while] loop, run for at most [fuel] passes. *)
Fixpoint while_loop (fuel : nat) (cfg : Config) (answers : nat → bool)
    (s : State) : outcome :=
  match fuel with
  | O => OutOfFuel
  | S fuel' =>
      match loop_body cfg answers s with
      | Exit s' => Done s'
      | Break s' => Done s'
      | Continue s' => while_loop fuel' cfg answers s'
      | Raises e => Error e
      end
  end.

(** One pass more than the queue is long. *)
Definition eviction_loop (cfg : Config) (answers : nat → bool) (s : State)
  : outcome :=
  while_loop (S (length (files s))) cfg answers s.

(** [print_verbose("Cleaned size:", cleanup_size)] *)
Definition print_cleaned_size (cfg : Config) (s : State) : State :=
  {| files := files s; total_size := total_size s;
     last_version := last_version s; last_build := last_build s;
     cleanup_size := cleanup_size s;
     trace := trace s ++
       (if verbose cfg then [EvCleanedSize (cleanup_size s)] else []);
     asked := asked s; evicted := evicted s |}.

(** [cleanup_packages], from the snapshot on. *)
Definition cleanup_packages (package : Package) (label : option string)
    (cfg : Config) (answers : nat → bool) : outcome :=
  let versions := pkg_versions package in
  let files := filter_label label (pkg_files package) in
  let total_size := total_size_of files in
  let files := classify versions files in
  match sort_files files with
  | Raised e => Error e
  | Ok files =>
      match eviction_loop cfg answers (initial_state files total_size) with
      | Done s => Done (print_cleaned_size cfg s)
      | o => o
      end
  end.

(** ** The words of the specification *)

(** A numeric component: one digit or more. *)
Fixpoint all_digits (s : string) : bool :=
  match s with
  | EmptyString => true
  | String c s' => Re.digit c && all_digits s'
  end.

Definition number (s : string) : Prop := s ≠ "" ∧ all_digits s = true.

(** [<major>.<minor>.<patch>[.]<dev|rc><N>] *)
Definition dev_shape (v : string) : Prop :=
  ∃ major minor patch dot tag n : string,
    v = major +:+ "." +:+ minor +:+ "." +:+ patch +:+ dot +:+ tag +:+ n
    ∧ number major ∧ number minor ∧ number patch
    ∧ (dot = "" ∨ dot = ".")
    ∧ (tag = "dev" ∨ tag = "rc")
    ∧ number n.

(** Whether the last character of a string is a digit. *)
Fixpoint last_digit (s : string) : bool :=
  match s with
  | EmptyString => false
  | String c EmptyString => Re.digit c
  | String _ s' => last_digit s'
  end.

(** The last development version: the last development-version string met
    while scanning the version sequence in its order. *)
Definition last_seen_dev (versions : list string) : option string :=
  last (filter (λ v, is_dev_version v = true) versions).

(** The files of a version. *)
Definition files_of_version (v : string) (files : list File) : list File :=
  filter (λ f, file_version f = v) files.

(** The decision table of the classifier, in its five ordered rows. *)
Definition table_priority (versions : list string) (files : list File)
    (f : File) : Z :=
  let v := file_version f in
  let top :=
    bool_decide (build_number f = max_build (files_of_version v files)) in
  let dev := is_dev_version v in
  let last_dev := bool_decide (last_seen_dev versions = Some v) in
  if top && dev && negb last_dev then 2
  else if top then 4
  else if last_dev then 3
  else if dev then 0
  else 1.

(** A file as it is before the classifier has met it. *)
Definition erase_priority (file : File) : File :=
  {| file_version := file_version file;
     file_attrs := file_attrs file;
     file_size := file_size file;
     file_upload_time := file_upload_time file;
     file_labels := file_labels file;
     file_full_name := file_full_name file;
     cleanup_priority := None |}.

(** The priority the inner loop computes for a file of [files]. *)
Definition assigned_priority (versions : list string) (files : list File)
    (f : File) : Z :=
  priority_of (is_dev_version (file_version f))
              (max_build (files_of_version (file_version f) files))
              (last_dev_of versions) f.

(** The store after the rounds of the versions [done]: the files of these
    versions carry their priority, the others are as they came. *)
Definition classified_upto (versions done : list string) (files st : list File)
  : Prop :=
  length st = length files
  ∧ ∀ i f, files !! i = Some f →
      st !! i = Some (if decide (file_version f ∈ done)
                      then set_cleanup_priority
                             (assigned_priority versions files f) f
                      else f).

(** The group of a file: its version and its build number. *)
Definition group_of (file : File) : string * Z :=
  (file_version file, build_number file).

(** The states the loop passes through: [reaches cfg answers s s'] when the
    loop, started in [s], is at the top of a pass in [s']. *)
Inductive reaches (cfg : Config) (answers : nat → bool)
  : State → State → Prop :=
| reaches_here s : reaches cfg answers s s
| reaches_pass s1 s2 s3 :
    reaches cfg answers s1 s2
    → loop_body cfg answers s2 = Continue s3
    → reaches cfg answers s1 s3.

(** [need_clean] as the specification words it: any of the three clauses. *)
Definition need_clean_spec (cfg : Config) (total_size : Z)
    (queue_length : nat) (priority : Z) : Prop :=
  (∃ m, max_size cfg = Some m ∧ total_size > m)
  ∨ (∃ mp, max_priority cfg = Some mp ∧ priority ≤ mp)
  ∨ (∃ k, keep_count cfg = Some k ∧ Z.of_nat queue_length > k).

(** The stop condition of the specification: the pair of the front file
    differs from the pair of the file deleted last, or nothing was deleted. *)
Definition differs_from_last_deleted (s : State) (front : File) : Prop :=
  match last (evicted s) with
  | None => True
  | Some g => group_of g ≠ group_of front
  end.

(** The markers [last_version], [last_build] name the file evicted last. *)
Definition markers_ok (s : State) : Prop :=
  last_version s = file_version <$> last (evicted s)
  ∧ last_build s = build_number <$> last (evicted s).

(** The events of a dry run: lines of output only. *)
Definition is_output (e : event) : bool :=
  match e with
  | EvRemoving _ _ | EvCleanedSize _ => true
  | EvBoolInput _ _ | EvRemoveDist _ => false
  end.

(** The order of the queue: ascending keys.  [a] may stand before [b] when
    the key of [b] is not below the key of [a]. *)
Definition decorated_le (a b : (Z * string) * File) : Prop :=
  key_lt b.1 a.1 = false.

Definition file_key_le (f g : File) : Prop :=
  ∃ kf kg, sort_key f = Ok kf ∧ sort_key g = Ok kg ∧ key_lt kg kf = false.

Definition priority_le (f g : File) : Prop :=
  ∃ p q, cleanup_priority f = Some p ∧ cleanup_priority g = Some q ∧ p ≤ q.

(** With a keep count alone: the number of files that are too many. *)
Definition excess (N : Z) (queue : list File) : nat :=
  Z.to_nat (Z.of_nat (length queue) - N) `min` length queue.

(** No overrun by group continuation after [k] evictions: the file then at
    the front is not of the pair of the file evicted last. *)
Definition no_overrun (queue : list File) (k : nat) : Prop :=
  ∀ f g, (0 < k)%nat
         → queue !! (k - 1)%nat = Some f → queue !! k = Some g
         → group_of f ≠ group_of g.

(** Whether the priority of a file is at or below a cap. *)
Definition at_most (mp : Z) (f : File) : bool :=
  match cleanup_priority f with
  | Some p => p <=? mp
  | None => false
  end.

(** No file above the cap is of the pair of a file at or below it. *)
Definition groups_apart (mp : Z) (l : list File) : bool :=
  forallb (λ f,
    forallb (λ g,
      negb (at_most mp f) || at_most mp g
      || negb (bool_decide (group_of f = group_of g))) l) l.

(** ** Worked examples *)

(** A file with the build number of a conda package. *)
Definition conda_file (version : string) (build : Z) (full_name : string)
    (size : Z) (upload_time : string) : File :=
  {| file_version := version;
     file_attrs := Some {| attr_build_number := Some build;
                           attr_build_no := None |};
     file_size := size;
     file_upload_time := upload_time;
     file_labels := ["main"];
     file_full_name := full_name;
     cleanup_priority := None |}.

(** Two artifacts of one build, 100 bytes each, under a cap of 150 bytes; the
    operator declines the first and accepts the second. *)
Definition siblings : Package :=
  {| pkg_versions := ["1.0.0"];
     pkg_files :=
       [conda_file "1.0.0" 0 "u/pkg/1.0.0/linux-64/pkg-1.0.0-0.conda" 100
                   "2023-01-01 10:00:00";
        conda_file "1.0.0" 0 "u/pkg/1.0.0/win-64/pkg-1.0.0-0.conda" 100
                   "2023-01-01 11:00:00"] |}.

Definition cap_150 : Config :=
  {| keep_count := None; max_size := Some 150; max_priority := None;
     dry_run := false; force := false; verbose := false |}.

Definition decline_first (n : nat) : bool :=
  match n with
  | O => false
  | S _ => true
  end.

(** The example of the help text of [--max-priority]: eight files of five
    versions, the first version listed twice.  The names of the versions,
    the sizes and the upload times are left open. *)
Definition help_example (v10 v12dev1 v20 v21dev1 v21dev2 : string)
    (size : nat → Z) (time : nat → string) : Package :=
  {| pkg_versions := [v10; v10; v12dev1; v20; v21dev1; v21dev2];
     pkg_files :=
       [conda_file v10 0 "pkg_v1.0_bld-0" (size 0%nat) (time 0%nat);
        conda_file v10 1 "pkg_v1.0_bld-1" (size 1%nat) (time 1%nat);
        conda_file v12dev1 0 "pkg_v1.2dev1_bld-0" (size 2%nat) (time 2%nat);
        conda_file v20 0 "pkg_v2.0_bld-0" (size 3%nat) (time 3%nat);
        conda_file v21dev1 0 "pkg_v2.1dev1_bld-0" (size 4%nat) (time 4%nat);
        conda_file v21dev1 1 "pkg_v2.1dev1_bld-1" (size 5%nat) (time 5%nat);
        conda_file v21dev2 0 "pkg_v2.1dev2_bld-0" (size 6%nat) (time 6%nat);
        conda_file v21dev2 2 "pkg_v2.1dev2_bld-2" (size 7%nat) (time 7%nat)]
  |}.

(** The versions as the specification writes them, and written with three
    numeric components. *)
Definition help_example_written : (nat → Z) → (nat → string) → Package :=
  help_example "1.0" "1.2dev1" "2.0" "2.1dev1" "2.1dev2".

Definition help_example_triplet : (nat → Z) → (nat → string) → Package :=
  help_example "1.0.0" "1.2.0dev1" "2.0.0" "2.1.0dev1" "2.1.0dev2".

(** The priorities the classifier gives to the files of a package. *)
Definition priorities (package : Package) : list (option Z) :=
  cleanup_priority <$> classify (pkg_versions package) (pkg_files package).

(** Sizes and upload times to run the example on. *)
Definition one_kilobyte (n : nat) : Z := 1024.

Definition hour (n : nat) : string :=
  "2023-01-01 0" +:+ String (ascii_of_nat (48 + n)) ":00:00".

(** Two artifacts of build 0 of version 1.0.0, uploaded before and after the
    artifact of version 1.1.0; 100 bytes each, under a cap of 250 bytes, with
    [--force]. *)
Definition interleaved : Package :=
  {| pkg_versions := ["1.0.0"; "1.1.0"];
     pkg_files :=
       [conda_file "1.0.0" 0 "u/pkg/1.0.0/linux-64/pkg-1.0.0-0.conda" 100
                   "2023-01-01 10:00:00";
        conda_file "1.1.0" 0 "u/pkg/1.1.0/linux-64/pkg-1.1.0-0.conda" 100
                   "2023-02-01 10:00:00";
        conda_file "1.0.0" 0 "u/pkg/1.0.0/win-64/pkg-1.0.0-0.conda" 100
                   "2023-03-01 10:00:00"] |}.

Definition cap_250_force : Config :=
  {| keep_count := None; max_size := Some 250; max_priority := None;
     dry_run := false; force := true; verbose := false |}.

Definition priority_cap_1 : Config :=
  {| keep_count := None; max_size := None; max_priority := Some 1;
     dry_run := true; force := false; verbose := true |}.

Definition keep_2 : Config :=
  {| keep_count := Some 2; max_size := None; max_priority := None;
     dry_run := true; force := false; verbose := false |}.

Definition never (n : nat) : bool := false.

(** A file whose version the registry does not list. *)
Definition orphan : Package :=
  {| pkg_versions := ["1.0.0"];
     pkg_files :=
       [conda_file "1.0.0" 0 "u/pkg/1.0.0/linux-64/pkg-1.0.0-0.conda" 100
                   "2023-01-01 10:00:00";
        conda_file "2.0.0" 0 "u/pkg/2.0.0/linux-64/pkg-2.0.0-0.conda" 100
                   "2023-02-01 10:00:00"] |}.

(** The state in which the loop starts on a package. *)
Definition start_of (package : Package) : State :=
  initial_state (classify (pkg_versions package) (pkg_files package))
                (total_size_of (pkg_files package)).

(** ** The command line *)

(** The values [argparse] hands to the script. *)
Record Args : Type := mkArgs {
  args_package_path : string;
  args_label : option string;
  args_token : string;
  args_keep_count : option Z;
  args_max_size : option Z;
  args_max_priority : option Z;
  args_dry_run : bool;
  args_force : bool;
  args_verbose : bool
}.

(** The table of the quotas, in bytes. *)
Definition QUOTAS : gmap string Z :=
  list_to_map
    [("dppy/dpctl", (512 + 128) * 1024 * 1024);
     ("dppy/dpnp", (512 - 128) * 1024 * 1024);
     ("dppy/numba-dpex", 256 * 1024 * 1024);
     ("dppy/numba-mlir", 512 * 1024 * 1024);
     ("dppy/dpbench", 128 * 1024 * 1024);
     ("dppy/dpcpp-llvm-spirv", 256 * 1024 * 1024)].

(** [args.max_size] after the first [if] of the main block: the quota of the
    package stands in for a size cap that was not given. *)
Definition quota_max_size (args : Args) : option Z :=
  match args_max_size args with
  | Some m => Some m
  | None => QUOTAS !! args_package_path args
  end.

(** The limits and flags the main block passes on. *)
Definition config_of (args : Args) : Config :=
  {| keep_count := args_keep_count args;
     max_size := quota_max_size args;
     max_priority := args_max_priority args;
     dry_run := args_dry_run args;
     force := args_force args;
     verbose := args_verbose args |}.

(** How the main block ends: with its [Exception], or with the run of
    [cleanup_packages]. *)
Inductive main_outcome : Type :=
| MainException (msg : string)
| MainRan (o : outcome).

(** The main block, from the parsed arguments on.  [registry] is the answer
    of the server for a package path. *)
Definition main (registry : string → Package) (args : Args)
    (answers : nat → bool) : main_outcome :=
  match quota_max_size args, args_max_priority args, args_keep_count args with
  | None, None, None =>
      MainException
        "at least one of --keep-count, --max-size, --max-priority must be set"
  | _, _, _ =>
      MainRan (cleanup_packages (registry (args_package_path args))
                                (args_label args) (config_of args) answers)
  end.

(** ** Notions for the further properties *)

(** The names handed to [remove_dist], in the order of the calls. *)
Definition removed_names (tr : list event) : list string :=
  omap (λ e, match e with EvRemoveDist n => Some n | _ => None end) tr.

(** The files among [l] that the operator accepts, when the first of them is
    asked about in question [n]. *)
Fixpoint accepted (answers : nat → bool) (n : nat) (l : list File)
  : list File :=
  match l with
  | [] => []
  | f :: l' =>
      if answers n then f :: accepted answers (S n) l'
      else accepted answers (S n) l'
  end.

(** Whether every character of a string is in a class. *)
Fixpoint string_forall (p : ascii → bool) (s : string) : bool :=
  match s with
  | EmptyString => true
  | String c s' => p c && string_forall p s'
  end.

(** The characters of a plain version number: digits and dots. *)
Definition digit_or_dot (c : ascii) : bool :=
  Re.digit c || Ascii.eqb c ".".

(** The files with a given key of the sort. *)
Definition has_key (p : Z) (t : string) (f : File) : Prop :=
  cleanup_priority f = Some p ∧ file_upload_time f = t.

#[global] Instance has_key_dec (p : Z) (t : string) (f : File)
  : Decision (has_key p t f) :=
  ltac:(unfold has_key; apply _).

(** Two configurations with the same limits. *)
Definition same_limits (cfg1 cfg2 : Config) : Prop :=
  keep_count cfg1 = keep_count cfg2
  ∧ max_size cfg1 = max_size cfg2
  ∧ max_priority cfg1 = max_priority cfg2.

(** Two states that agree on the variables of the script. *)
Definition same_variables (s1 s2 : State) : Prop :=
  files s1 = files s2
  ∧ total_size s1 = total_size s2
  ∧ last_version s1 = last_version s2
  ∧ last_build s1 = last_build s2
  ∧ cleanup_size s1 = cleanup_size s2
  ∧ evicted s1 = evicted s2.

(** Two passes, or two runs, that end the same way on such states. *)
Definition same_step (a b : step) : Prop :=
  match a, b with
  | Exit s1, Exit s2 | Break s1, Break s2 | Continue s1, Continue s2 =>
      same_variables s1 s2
  | Raises e1, Raises e2 => e1 = e2
  | _, _ => False
  end.

Definition same_outcome (a b : outcome) : Prop :=
  match a, b with
  | Done s1, Done s2 => same_variables s1 s2
  | Error e1, Error e2 => e1 = e2
  | OutOfFuel, OutOfFuel => True
  | _, _ => False
  end.

(** Further inputs to run the properties on. *)
Definition same_hour (n : nat) : string := "2023-01-01 00:00:00".

Definition priority_cap_1_force : Config :=
  {| keep_count := None; max_size := None; max_priority := Some 1;
     dry_run := false; force := true; verbose := false |}.

Definition one_registry (path : string) : Package := interleaved.

Definition dpbench_args : Args :=
  {| args_package_path := "dppy/dpbench"; args_label := None;
     args_token := ""; args_keep_count := None; args_max_size := None;
     args_max_priority := None; args_dry_run := true; args_force := false;
     args_verbose := false |}.

Definition no_limit_args : Args :=
  {| args_package_path := "someone/else"; args_label := None;
     args_token := ""; args_keep_count := None; args_max_size := None;
     args_max_priority := None; args_dry_run := true; args_force := false;
     args_verbose := false |}.

(** * Properties *)

(** ** The matcher decides the language *)

Module ReFacts.
Import Re.

Local Arguments String.append : simpl nomatch.

Lemma app_empty_r (s : string) : s +:+ "" = s.
Proof. induction s as [|c s IH]; simpl; [done | by rewrite IH]. Qed.

Lemma app_assoc (s1 s2 s3 : string) :
  (s1 +:+ s2) +:+ s3 = s1 +:+ (s2 +:+ s3).
Proof. induction s1 as [|c s1 IH]; simpl; [done | by rewrite IH]. Qed.

Lemma app_eq_empty (s1 s2 : string) : s1 +:+ s2 = "" → s1 = "" ∧ s2 = "".
Proof. destruct s1; simpl; [done | discriminate]. Qed.

Lemma matches_Void s : matches Void s ↔ False.
Proof. split; [inversion 1 | done]. Qed.

Lemma matches_Eps s : matches Eps s ↔ s = "".
Proof. split; [by inversion 1 | intros ->; constructor]. Qed.

Lemma matches_Class p s :
  matches (Class p) s ↔ ∃ c, s = String c "" ∧ p c = true.
Proof.
  split.
  - inversion 1; subst; eauto.
  - intros (c & -> & Hc). by constructor.
Qed.

Lemma matches_Seq r1 r2 s :
  matches (Seq r1 r2) s
  ↔ ∃ s1 s2, s = s1 +:+ s2 ∧ matches r1 s1 ∧ matches r2 s2.
Proof.
  split.
  - inversion 1; subst; eauto.
  - intros (s1 & s2 & -> & H1 & H2). by constructor.
Qed.

Lemma matches_Alt r1 r2 s :
  matches (Alt r1 r2) s ↔ matches r1 s ∨ matches r2 s.
Proof.
  split.
  - inversion 1; subst; auto.
  - intros [H|H]; [by apply MAltL | by apply MAltR].
Qed.

(** A non-empty word of [r*] starts with a non-empty word of [r]. *)
Lemma matches_Star_cons r c s :
  matches (Star r) (String c s)
  → ∃ s1 s2, s = s1 +:+ s2 ∧ matches r (String c s1) ∧ matches (Star r) s2.
Proof.
  intros H. remember (Star r) as r' eqn:Hr.
  remember (String c s) as w eqn:Hw.
  revert c s Hw. induction H as [| | | | | |r0 s1 s2 H1 _ H2 IH2];
    intros a w Hw; try discriminate.
  injection Hr as ->. destruct s1 as [|c1 s1]; simpl in Hw.
  - by apply IH2.
  - injection Hw as -> <-. eauto.
Qed.

Lemma nullable_matches r : nullable r = true ↔ matches r "".
Proof.
  split.
  - induction r as [| |p|r1 IH1 r2 IH2|r1 IH1 r2 IH2|r IH]; simpl; intros H;
      try discriminate.
    + constructor.
    + apply andb_true_iff in H as [H1 H2].
      change "" with ("" +:+ ""). constructor; auto.
    + apply orb_true_iff in H as [H|H]; [apply MAltL | apply MAltR]; auto.
    + constructor.
  - intros H. remember "" as w eqn:Hw.
    induction H as [|p c Hc|r1 r2 s1 s2 _ IH1 _ IH2|r1 r2 s _ IH
                   |r1 r2 s _ IH| |]; simpl; try done.
    + apply app_eq_empty in Hw as [-> ->]. by rewrite IH1, IH2.
    + by rewrite IH.
    + rewrite IH by done. by rewrite orb_true_r.
Qed.

Lemma deriv_matches c r s : matches (deriv c r) s ↔ matches r (String c s).
Proof.
  revert s.
  induction r as [| |p|r1 IH1 r2 IH2|r1 IH1 r2 IH2|r IH]; intros s; simpl.
  - rewrite !matches_Void. done.
  - rewrite matches_Void, matches_Eps. done.
  - rewrite matches_Class. destruct (p c) eqn:Hc.
    + rewrite matches_Eps. split.
      * intros ->. eauto.
      * intros (c' & [= <- ->] & _). done.
    + rewrite matches_Void. split; [done|].
      intros (c' & [= <- ->] & Hc'). congruence.
  - assert (Hseq : matches (Seq (deriv c r1) r2) s
                   ↔ ∃ s1 s2, s = s1 +:+ s2
                        ∧ matches r1 (String c s1) ∧ matches r2 s2).
    { rewrite matches_Seq. by setoid_rewrite IH1. }
    rewrite (matches_Seq r1 r2). destruct (nullable r1) eqn:Hn.
    + rewrite matches_Alt, Hseq, IH2. split.
      * intros [(s1 & s2 & -> & H1 & H2)|H2].
        -- by exists (String c s1), s2.
        -- exists "", (String c s). split; [done|].
           split; [by apply nullable_matches | done].
      * intros ([|c1 s1] & s2 & Heq & H1 & H2); simpl in Heq.
        -- right. by rewrite Heq.
        -- injection Heq as <- ->. left. eauto.
    + rewrite Hseq. split.
      * intros (s1 & s2 & -> & H1 & H2). by exists (String c s1), s2.
      * intros ([|c1 s1] & s2 & Heq & H1 & H2); simpl in Heq.
        -- apply nullable_matches in H1. congruence.
        -- injection Heq as <- ->. eauto.
  - rewrite !matches_Alt, IH1, IH2. done.
  - rewrite matches_Seq. split.
    + intros (s1 & s2 & -> & H1 & H2). apply IH in H1.
      change (String c (s1 +:+ s2)) with (String c s1 +:+ s2).
      by constructor.
    + intros H. apply matches_Star_cons in H as (s1 & s2 & -> & H1 & H2).
      exists s1, s2. by rewrite IH.
Qed.

Lemma match_at_start_spec r s :
  match_at_start r s = true ↔ ∃ p q, s = p +:+ q ∧ matches r p.
Proof.
  revert r. induction s as [|c s IH]; intros r; simpl.
  - rewrite orb_false_r, nullable_matches. split.
    + intros H. by exists "", "".
    + intros (p & q & Heq & H). symmetry in Heq.
      apply app_eq_empty in Heq as [-> _]. done.
  - rewrite orb_true_iff, IH, nullable_matches. split.
    + intros [H|(p & q & -> & H)].
      * by exists "", (String c s).
      * exists (String c p), q. by rewrite <- deriv_matches.
    + intros ([|c' p] & q & Heq & H); simpl in Heq.
      * by left.
      * injection Heq as <- ->. right. exists p, q.
        by rewrite deriv_matches.
Qed.

Lemma matches_Chr c s : matches (Chr c) s ↔ s = String c "".
Proof.
  unfold Chr. rewrite matches_Class. split.
  - intros (c' & -> & Hc). by apply Ascii.eqb_eq in Hc as ->.
  - intros ->. exists c. by rewrite Ascii.eqb_refl.
Qed.

Lemma matches_Lit l s : matches (Lit l) s ↔ s = l.
Proof.
  revert s. induction l as [|c l IH]; intros s; simpl.
  - apply matches_Eps.
  - rewrite matches_Seq. split.
    + intros (s1 & s2 & -> & H1 & H2).
      apply matches_Chr in H1 as ->. apply IH in H2 as ->. done.
    + intros ->. exists (String c ""), l.
      split; [done|]. by rewrite matches_Chr, IH.
Qed.

Lemma matches_Opt r s : matches (Opt r) s ↔ s = "" ∨ matches r s.
Proof. unfold Opt. rewrite matches_Alt, matches_Eps. tauto. Qed.

Lemma matches_digits s : matches (Star (Class digit)) s ↔ all_digits s = true.
Proof.
  induction s as [|c s IH]; simpl.
  - split; [done | constructor].
  - rewrite andb_true_iff, <- IH. split.
    + intros H. apply matches_Star_cons in H as (s1 & s2 & -> & H1 & H2).
      apply matches_Class in H1 as (c' & [= <- ->] & Hc). done.
    + intros [Hc H]. change (String c s) with (String c "" +:+ s).
      constructor; [by constructor | done].
Qed.

Lemma matches_number s : matches (Plus (Class digit)) s ↔ number s.
Proof.
  unfold Plus, number. rewrite matches_Seq. split.
  - intros (s1 & s2 & -> & H1 & H2).
    apply matches_Class in H1 as (c & -> & Hc). simpl.
    apply matches_digits in H2. by rewrite Hc, H2.
  - intros [Hne H]. destruct s as [|c s]; [done|]. simpl in H.
    apply andb_true_iff in H as [Hc H].
    exists (String c ""), s. split; [done|].
    split; [by constructor | by apply matches_digits].
Qed.

End ReFacts.

(** The matches of the pattern of [is_dev_version] are the strings of the
    shape the specification names. *)
Local Opaque Re.Plus Re.Opt Re.Chr Re.Lit.

Lemma dev_version_re_shape (p : string) :
  Re.matches dev_version_re p ↔ dev_shape p.
Proof.
  unfold dev_version_re, dev_shape.
  repeat setoid_rewrite ReFacts.matches_Seq.
  repeat setoid_rewrite ReFacts.matches_number.
  repeat setoid_rewrite ReFacts.matches_Chr.
  setoid_rewrite ReFacts.matches_Opt.
  setoid_rewrite ReFacts.matches_Alt.
  repeat setoid_rewrite ReFacts.matches_Lit.
  setoid_rewrite ReFacts.matches_Chr.
  split.
  - intros (major & ? & -> & Hmaj & ? & ? & -> & -> & minor & ? & -> & Hmin
            & ? & ? & -> & -> & patch & ? & -> & Hpat & dot & ? & -> & Hdot
            & tag & n & -> & Htag & Hn).
    exists major, minor, patch, dot, tag, n. done.
  - intros (major & minor & patch & dot & tag & n & -> & Hmaj & Hmin & Hpat
            & Hdot & Htag & Hn).
    repeat (eexists; eexists; split; [reflexivity|]; split; [done|]).
    done.
Qed.

Local Transparent Re.Plus Re.Opt Re.Chr Re.Lit.

(** ** [is_dev_version] *)

Lemma number_last_digit (n : string) : number n → last_digit n = true.
Proof.
  intros [Hne Hd]. induction n as [|c n IH]; [done|].
  simpl in Hd. apply andb_true_iff in Hd as [Hc Hd].
  destruct n as [|c' n]; [done|]. apply IH; done.
Qed.

Lemma app_last_digit (a n : string) :
  n ≠ "" → last_digit (a +:+ n) = last_digit n.
Proof.
  intros Hne. induction a as [|c a IH]; [done|].
  change (String c a +:+ n) with (String c (a +:+ n)).
  simpl. destruct (a +:+ n) eqn:Heq; [|done].
  apply ReFacts.app_eq_empty in Heq as [_ ->]. done.
Qed.

Lemma dev_shape_last_digit (v : string) : dev_shape v → last_digit v = true.
Proof.
  intros (major & minor & patch & dot & tag & n & -> & _ & _ & _ & _ & _ & Hn).
  repeat rewrite <- ReFacts.app_assoc.
  rewrite app_last_digit by apply Hn. by apply number_last_digit.
Qed.

(** C5, as the code has it.  [is_dev_version v] holds exactly when [v] begins
    with [<major>.<minor>.<patch>], an optional dot, the tag [dev] or [rc] and
    one digit or more; what follows these digits is not looked at.  Every
    other string is a release version. *)
Theorem is_dev_version_iff_prefix (v : string) :
  (is_dev_version v = true ↔ ∃ p rest, v = p +:+ rest ∧ dev_shape p)
  ∧ (is_dev_version v = false ↔ ¬ ∃ p rest, v = p +:+ rest ∧ dev_shape p).
Proof.
  assert (H : is_dev_version v = true
              ↔ ∃ p rest, v = p +:+ rest ∧ dev_shape p).
  { unfold is_dev_version. rewrite ReFacts.match_at_start_spec.
    by setoid_rewrite dev_version_re_shape. }
  split; [done|]. rewrite <- H. by destruct (is_dev_version v).
Qed.

(** C5, as it is stated, fails: a version that goes on after the digits of
    the tag is a development version for the code, and has not the shape
    [<major>.<minor>.<patch>[.]<dev|rc><N>]. *)
Lemma is_dev_version_not_whole_string :
  ¬ (is_dev_version "1.2.3dev4+local" = true ↔ dev_shape "1.2.3dev4+local").
Proof.
  intros [H _]. specialize (H eq_refl).
  apply dev_shape_last_digit in H. discriminate H.
Qed.

(** ** The classifier *)

Section Classifier.

Lemma last_dev_of_snoc (versions : list string) (v : string) :
  last_dev_of (versions ++ [v])
  = if is_dev_version v then Some v else last_dev_of versions.
Proof. unfold last_dev_of. by rewrite fold_left_app. Qed.

(** The scan computes the last development version of the sequence. *)
Lemma last_dev_of_last_seen (versions : list string) :
  last_dev_of versions = last_seen_dev versions.
Proof.
  unfold last_seen_dev.
  induction versions as [|v versions IH] using rev_ind; [done|].
  rewrite last_dev_of_snoc, filter_app, filter_cons, filter_nil.
  destruct (is_dev_version v) eqn:Hv.
  - rewrite decide_True by done. by rewrite last_snoc.
  - rewrite decide_False by congruence. by rewrite app_nil_r.
Qed.

Lemma last_dev_of_is_dev (versions : list string) (v : string) :
  last_dev_of versions = Some v → is_dev_version v = true.
Proof.
  induction versions as [|w versions IH] using rev_ind; [done|].
  rewrite last_dev_of_snoc. destruct (is_dev_version w) eqn:Hw; [|done].
  by intros [= <-].
Qed.

Lemma files_by_version_snoc (files : list File) (f : File) :
  files_by_version (files ++ [f])
  = group_append (files_by_version files) (file_version f) (length files).
Proof.
  unfold files_by_version. rewrite imap_app, fold_left_app. simpl.
  by rewrite Nat.add_0_r.
Qed.

Lemma group_append_lookup (m : gmap string (list nat)) (v w : string)
    (i : nat) :
  default [] (group_append m v i !! w)
  = if decide (v = w) then default [] (m !! w) ++ [i]
    else default [] (m !! w).
Proof.
  unfold group_append. case_decide as Hvw.
  - subst. by rewrite lookup_insert_eq.
  - by rewrite lookup_insert_ne.
Qed.

(** The references held under a version are the positions of its files. *)
Lemma files_by_version_elem (files : list File) (v : string) (i : nat) :
  i ∈ default [] (files_by_version files !! v)
  ↔ ∃ f, files !! i = Some f ∧ file_version f = v.
Proof.
  revert i. induction files as [|f files IH] using rev_ind; intros i.
  - unfold files_by_version. simpl. rewrite lookup_empty. simpl.
    rewrite elem_of_nil. naive_solver.
  - rewrite files_by_version_snoc, group_append_lookup.
    destruct (decide (i < length files)%nat) as [Hlt|Hge].
    + rewrite lookup_app_l by done. rewrite <- IH.
      case_decide; [|done]. rewrite elem_of_app, list_elem_of_singleton.
      split; [|by left]. intros [?|?]; [done | lia].
    + assert (Hout : i ∉ default [] (files_by_version files !! v)).
      { intros (g & Hg & _)%IH. apply lookup_lt_Some in Hg. lia. }
      destruct (decide (i = length files)) as [->|Hne].
      * rewrite list_lookup_middle by done.
        case_decide as Hv.
        -- rewrite elem_of_app, list_elem_of_singleton. naive_solver.
        -- split; [done|]. intros (g & [= <-] & ?). done.
      * rewrite lookup_ge_None_2
          by (rewrite length_app; simpl; lia).
        case_decide.
        -- rewrite elem_of_app, list_elem_of_singleton. naive_solver.
        -- naive_solver.
Qed.

Lemma omap_ext_in {A B} (F G : A → option B) (l : list A) :
  (∀ x, x ∈ l → F x = G x) → omap F l = omap G l.
Proof.
  induction l as [|x l IH]; intros H; [done|]. csimpl.
  rewrite (H x) by (by left). rewrite IH; [done|].
  intros y Hy. apply H. by right.
Qed.

(** Read through the references, a version's group is the list of its
    files, in the order of [files]. *)
Lemma files_by_version_files (files : list File) (v : string) :
  omap (λ i, files !! i) (default [] (files_by_version files !! v))
  = files_of_version v files.
Proof.
  unfold files_of_version.
  induction files as [|f files IH] using rev_ind.
  - unfold files_by_version. simpl. by rewrite lookup_empty.
  - rewrite files_by_version_snoc, group_append_lookup, filter_app, <- IH.
    assert (Hold : omap (λ i, (files ++ [f]) !! i)
                        (default [] (files_by_version files !! v))
                   = omap (λ i, files !! i)
                        (default [] (files_by_version files !! v))).
    { apply omap_ext_in. intros i (g & Hg & _)%files_by_version_elem.
      apply lookup_lt_Some in Hg. by rewrite lookup_app_l. }
    rewrite filter_cons, filter_nil. case_decide as Hv.
    + rewrite omap_app, Hold. f_equal.
      simpl. by rewrite list_lookup_middle.
    + by rewrite Hold, app_nil_r.
Qed.

Lemma build_number_set (p : Z) (f : File) :
  build_number (set_cleanup_priority p f) = build_number f.
Proof. done. Qed.

Lemma priority_of_set d m l (p : Z) (f : File) :
  priority_of d m l (set_cleanup_priority p f) = priority_of d m l f.
Proof. done. Qed.

Lemma set_cleanup_priority_twice (p q : Z) (f : File) :
  set_cleanup_priority p (set_cleanup_priority q f)
  = set_cleanup_priority p f.
Proof. done. Qed.

(** The inner loop rewrites the dicts of the group, and no other. *)
Lemma fold_alter_lookup {A} (g : A → A) (group : list nat) (st : list A)
    (j : nat) :
  (∀ x, g (g x) = g x)
  → fold_left (λ st i, alter g i st) group st !! j
    = if decide (j ∈ group) then g <$> st !! j else st !! j.
Proof.
  intros Hg. revert st.
  induction group as [|i group IH]; intros st; cbn [fold_left].
  - by rewrite decide_False by apply not_elem_of_nil.
  - rewrite IH, list_lookup_alter.
    destruct (decide (j ∈ i :: group)) as [Hin|Hout].
    + apply elem_of_cons in Hin.
      destruct (decide (i = j)) as [->|Hij].
      * case_decide; [|done].
        destruct (st !! j); simpl; [by rewrite Hg | done].
      * rewrite decide_True; [done|]. naive_solver.
    + rewrite elem_of_cons in Hout.
      rewrite (decide_False (P := j ∈ group)) by naive_solver.
      rewrite decide_False; [done|]. naive_solver.
Qed.

Lemma fold_alter_length {A} (g : A → A) (group : list nat) (st : list A) :
  length (fold_left (λ st i, alter g i st) group st) = length st.
Proof.
  revert st. induction group as [|i group IH]; intros st; simpl; [done|].
  by rewrite IH, length_alter.
Qed.

Variables (versions : list string) (files : list File).

(** While the classifier runs, the build numbers read through the
    references are those of [files]. *)
Lemma classified_upto_max_build (done : list string) (st : list File)
    (v : string) :
  classified_upto versions done files st
  → max_build (omap (λ i, st !! i)
                    (default [] (files_by_version files !! v)))
    = max_build (files_of_version v files).
Proof.
  intros [_ Hst]. rewrite <- files_by_version_files. unfold max_build.
  rewrite !list_fmap_omap.
  rewrite (omap_ext_in (λ i, build_number <$> st !! i)
                       (λ i, build_number <$> files !! i)); [done|].
  intros i (f & Hf & _)%files_by_version_elem.
  rewrite (Hst i f Hf), Hf. simpl. by case_decide.
Qed.

(** One round of the outer loop. *)
Lemma classify_version_upto (done : list string) (st : list File)
    (v : string) :
  classified_upto versions done files st
  → classified_upto versions (done ++ [v]) files
      (classify_version (files_by_version files) (last_dev_of versions)
                        st v).
Proof.
  intros Hinv. pose proof Hinv as [Hlen Hst].
  unfold classify_version.
  rewrite (classified_upto_max_build done st v Hinv).
  split; [by rewrite fold_alter_length|].
  intros i f Hf. rewrite fold_alter_lookup by done.
  rewrite (Hst i f Hf). simpl.
  destruct (decide (i ∈ default [] (files_by_version files !! v)))
    as [Hin|Hout].
  - apply files_by_version_elem in Hin as (g & Hg & <-).
    assert (g = f) as -> by congruence.
    rewrite (decide_True (P := file_version f ∈ done ++ [file_version f]))
      by (apply elem_of_app; right; by left).
    by case_decide.
  - assert (Hv : file_version f ≠ v).
    { intros <-. apply Hout, files_by_version_elem. eauto. }
    assert (Hiff : file_version f ∈ done ++ [v] ↔ file_version f ∈ done).
    { rewrite elem_of_app, list_elem_of_singleton. naive_solver. }
    by rewrite (decide_ext _ _ _ _ Hiff).
Qed.

Lemma classify_rounds (vs done : list string) (st : list File) :
  classified_upto versions done files st
  → classified_upto versions (done ++ vs) files
      (fold_left (classify_version (files_by_version files)
                                   (last_dev_of versions)) vs st).
Proof.
  revert done st. induction vs as [|v vs IH]; intros done st Hinv; simpl.
  - by rewrite app_nil_r.
  - replace (done ++ v :: vs) with ((done ++ [v]) ++ vs)
      by (by rewrite <- app_assoc).
    by apply IH, classify_version_upto.
Qed.

(** What the classifier leaves in the dicts of [files]. *)
Lemma classify_upto : classified_upto versions versions files
                                      (classify versions files).
Proof.
  unfold classify. apply (classify_rounds versions []).
  split; [done|]. intros i f Hf.
  by rewrite decide_False by apply not_elem_of_nil.
Qed.

(** The nested conditions of the loop and the ordered table agree. *)
Lemma assigned_priority_table (f : File) :
  assigned_priority versions files f = table_priority versions files f.
Proof.
  unfold assigned_priority, table_priority, priority_of.
  rewrite <- last_dev_of_last_seen.
  set (mbd := max_build (files_of_version (file_version f) files)).
  assert (Hsym : bool_decide (Some (file_version f) = last_dev_of versions)
                 = bool_decide
                     (last_dev_of versions = Some (file_version f)))
    by (by apply bool_decide_ext).
  rewrite Hsym. clear Hsym.
  destruct (Z.eqb_spec (build_number f) mbd) as [Hb|Hb].
  - rewrite (bool_decide_eq_true_2 (build_number f = mbd)) by done.
    by destruct (is_dev_version (file_version f)), (bool_decide _).
  - rewrite (bool_decide_eq_false_2 (build_number f = mbd)) by done.
    simpl. case_bool_decide as Hl.
    + by rewrite (last_dev_of_is_dev _ _ Hl).
    + by rewrite andb_false_r.
Qed.

End Classifier.

(** C1.  A file whose version stands in the version sequence leaves the
    classifier with exactly the priority of the ordered table: 2 for the top
    build of a development version that is not the last one seen, else 4 for
    a top build, else 3 in the last development version, else 0 in a
    development version, else 1; nothing else of the file changes. *)
Theorem classify_decision_table (versions : list string) (files : list File)
    (i : nat) (f : File) :
  files !! i = Some f
  → file_version f ∈ versions
  → classify versions files !! i
    = Some (set_cleanup_priority (table_priority versions files f) f).
Proof.
  intros Hf Hv. destruct (classify_upto versions files) as [_ H].
  rewrite (H i f Hf), decide_True by done.
  by rewrite assigned_priority_table.
Qed.

(** ** The keys of the sort *)

Lemma table_priority_range (versions : list string) (files : list File)
    (f : File) :
  0 ≤ table_priority versions files f ≤ 4.
Proof.
  unfold table_priority.
  repeat match goal with
         | |- context [if ?b then _ else _] => destruct b; simpl
         end; lia.
Qed.

(** The keys are found when every dict has its priority. *)
Lemma decorate_ok (l : list File) :
  Forall (λ f, is_Some (cleanup_priority f)) l
  → ∃ d, decorate l = Ok d ∧ snd <$> d = l
         ∧ Forall (λ kf, sort_key kf.2 = Ok kf.1) d.
Proof.
  induction 1 as [|f l [p Hp] _ (d & Hd & Hsnd & Hkeys)]; simpl.
  - by exists [].
  - unfold sort_key at 1. rewrite Hp, Hd.
    eexists. split; [done|]. split; [by rewrite fmap_cons, Hsnd|].
    constructor; [|done]. simpl. unfold sort_key. by rewrite Hp.
Qed.

(** One dict without priority makes the sort raise [KeyError]. *)
Lemma decorate_raises (l : list File) (f : File) :
  f ∈ l → cleanup_priority f = None
  → decorate l = Raised (KeyError "cleanup_priority").
Proof.
  intros Hin Hnone. induction Hin as [f l|f g l _ IH]; simpl.
  - unfold sort_key. by rewrite Hnone.
  - rewrite (IH Hnone). unfold sort_key. by destruct (cleanup_priority g).
Qed.

(** When the version of every file stands in the version sequence, every
    file has its priority after the classifier, and the sort succeeds. *)
Lemma classify_all_keys (versions : list string) (files : list File) :
  (∀ f, f ∈ files → file_version f ∈ versions)
  → Forall (λ f, ∃ p, cleanup_priority f = Some p ∧ 0 ≤ p ≤ 4)
           (classify versions files)
    ∧ ∃ queue, sort_files (classify versions files) = Ok queue.
Proof.
  destruct (classify_upto versions files) as [Hlen Hst]. intros Hall.
  assert (Hprio : Forall (λ f, ∃ p, cleanup_priority f = Some p ∧ 0 ≤ p ≤ 4)
                         (classify versions files)).
  { apply Forall_lookup. intros i g Hg.
    destruct (files !! i) as [f|] eqn:Hf.
    - rewrite (Hst i f Hf) in Hg.
      rewrite decide_True in Hg
        by (apply Hall, list_elem_of_lookup; eauto).
      injection Hg as <-. eexists. split; [done|].
      rewrite assigned_priority_table. apply table_priority_range.
    - apply lookup_lt_Some in Hg. apply lookup_ge_None in Hf. lia. }
  split; [done|].
  destruct (decorate_ok (classify versions files)) as (d & Hd & _).
  { eapply Forall_impl; [exact Hprio|]. intros g (p & Hp & _). eauto. }
  unfold sort_files. rewrite Hd. eauto.
Qed.

(** C10.  When the version of every file stands in the version sequence,
    every file leaves the classifier with a priority from 0 to 4 and the
    sort finds all its keys.  When the version of some file is not in the
    sequence, the classifier leaves that file as it came, without priority
    if it had none, and the sort raises [KeyError] on the missing key. *)
Theorem classify_then_sort_keys (versions : list string)
    (files : list File) :
  ((∀ f, f ∈ files → file_version f ∈ versions)
   → Forall (λ f, ∃ p, cleanup_priority f = Some p ∧ 0 ≤ p ≤ 4)
            (classify versions files)
     ∧ ∃ queue, sort_files (classify versions files) = Ok queue)
  ∧ (∀ i f, files !! i = Some f
       → file_version f ∉ versions
       → cleanup_priority f = None
       → classify versions files !! i = Some f
         ∧ sort_files (classify versions files)
           = Raised (KeyError "cleanup_priority")).
Proof.
  destruct (classify_upto versions files) as [Hlen Hst]. split.
  - apply classify_all_keys.
  - intros i f Hf Hv Hnone.
    assert (Hi : classify versions files !! i = Some f)
      by (by rewrite (Hst i f Hf), decide_False).
    split; [done|]. unfold sort_files.
    rewrite (decorate_raises _ f); [done| |done].
    apply list_elem_of_lookup. eauto.
Qed.

(** ** The eviction loop *)

Section Loop.

Variables (cfg : Config) (answers : nat → bool).

Lemma loop_body_nil (s : State) :
  files s = [] → loop_body cfg answers s = Exit s.
Proof. unfold loop_body. by intros ->. Qed.

(** A pass that reaches the end of the body has taken the front file off
    the queue and has accounted for it. *)
Lemma loop_body_continue (s s' : State) :
  loop_body cfg answers s = Continue s'
  → ∃ f nc, files s = f :: files s'
      ∧ need_clean cfg (total_size s) (files s) f = Ok nc
      ∧ (nc = true ∨ other_group s (file_version f) (build_number f) = false)
      ∧ total_size s' = total_size s - file_size f
      ∧ cleanup_size s' = cleanup_size s + file_size f
      ∧ last_version s' = Some (file_version f)
      ∧ last_build s' = Some (build_number f)
      ∧ trace s' = trace s ++ (removal cfg answers (asked s) f nc).1
      ∧ asked s' = (removal cfg answers (asked s) f nc).2
      ∧ evicted s' = evicted s ++ [f].
Proof.
  unfold loop_body. destruct (files s) as [|f rest] eqn:Hq; [done|].
  destruct (need_clean cfg (total_size s) (f :: rest) f) as [nc|e] eqn:Hnc;
    [|done].
  destruct (negb nc && other_group s (file_version f) (build_number f))
    eqn:Hstop; [done|].
  destruct (removal cfg answers (asked s) f nc) as [evs n] eqn:Hrem.
  intros [= <-]. simpl. exists f, nc. rewrite Hrem.
  repeat split; try done.
  destruct nc; [by left | by right].
Qed.

Lemma loop_body_break (s s' : State) :
  loop_body cfg answers s = Break s'
  → ∃ f, head (files s) = Some f
      ∧ need_clean cfg (total_size s) (files s) f = Ok false
      ∧ other_group s (file_version f) (build_number f) = true
      ∧ files s' = files s ∧ total_size s' = total_size s
      ∧ cleanup_size s' = cleanup_size s ∧ trace s' = trace s
      ∧ asked s' = asked s ∧ evicted s' = evicted s
      ∧ last_version s' = None ∧ last_build s' = None.
Proof.
  unfold loop_body. destruct (files s) as [|f rest] eqn:Hq; [done|].
  destruct (need_clean cfg (total_size s) (f :: rest) f) as [nc|e] eqn:Hnc;
    [|done].
  destruct (negb nc && other_group s (file_version f) (build_number f))
    eqn:Hstop.
  - intros [= <-]. simpl. exists f.
    apply andb_true_iff in Hstop as [Hn Ho].
    by destruct nc.
  - by destruct (removal cfg answers (asked s) f nc).
Qed.

Lemma loop_body_exit (s s' : State) :
  loop_body cfg answers s = Exit s' → files s = [] ∧ s' = s.
Proof.
  unfold loop_body. destruct (files s) as [|f rest]; [by intros [= <-]|].
  destruct (need_clean _ _ _ _); [|done].
  destruct (_ && _); [done|]. by destruct (removal _ _ _ _ _).
Qed.

(** While fuel is left the loop does not stop for want of it. *)
Lemma while_loop_enough (fuel : nat) (s : State) :
  (length (files s) < fuel)%nat
  → while_loop fuel cfg answers s ≠ OutOfFuel.
Proof.
  revert s. induction fuel as [|fuel IH]; intros s Hlen; [lia|]. simpl.
  destruct (loop_body cfg answers s) as [s'|s'|s'|e] eqn:Hbody; try done.
  apply IH. apply loop_body_continue in Hbody as (f & nc & Hq & _).
  rewrite Hq in Hlen. simpl in Hlen. lia.
Qed.

(** More fuel does not change a result. *)
Lemma while_loop_more (fuel fuel' : nat) (s : State) :
  while_loop fuel cfg answers s ≠ OutOfFuel
  → (fuel ≤ fuel')%nat
  → while_loop fuel' cfg answers s = while_loop fuel cfg answers s.
Proof.
  revert fuel' s. induction fuel as [|fuel IH]; intros fuel' s Hres Hle;
    [done|].
  destruct fuel' as [|fuel']; [lia|]. simpl in *.
  destruct (loop_body cfg answers s); try done. apply IH; [done | lia].
Qed.

(** The loop unfolds as a [while] does. *)
Lemma eviction_loop_unfold (s : State) :
  eviction_loop cfg answers s
  = match loop_body cfg answers s with
    | Exit s' | Break s' => Done s'
    | Continue s' => eviction_loop cfg answers s'
    | Raises e => Error e
    end.
Proof.
  unfold eviction_loop. simpl.
  destruct (loop_body cfg answers s) as [s'|s'|s'|e] eqn:Hbody; try done.
  apply loop_body_continue in Hbody as (f & nc & -> & _). done.
Qed.

Lemma reaches_eviction_loop (s0 s : State) :
  reaches cfg answers s0 s
  → eviction_loop cfg answers s0 = eviction_loop cfg answers s.
Proof.
  induction 1 as [|s1 s2 s3 _ IH Hbody]; [done|].
  by rewrite IH, (eviction_loop_unfold s2), Hbody.
Qed.

Lemma reaches_markers_ok (s0 s : State) :
  markers_ok s0 → reaches cfg answers s0 s → markers_ok s.
Proof.
  intros H0. induction 1 as [|s1 s2 s3 _ IH Hbody]; [done|].
  apply loop_body_continue in Hbody
    as (f & nc & _ & _ & _ & _ & _ & Hv & Hb & _ & _ & He).
  unfold markers_ok. by rewrite Hv, Hb, He, last_snoc.
Qed.

Lemma reaches_first (s s1 s2 : State) :
  loop_body cfg answers s = Continue s1
  → reaches cfg answers s1 s2 → reaches cfg answers s s2.
Proof.
  intros Hbody Hreach. induction Hreach as [|s1 s2 s3 _ IH Hb].
  - eapply reaches_pass; [apply reaches_here | done].
  - eapply reaches_pass; [by apply IH | done].
Qed.

(** The loop ends on the empty queue or on [break]. *)
Lemma eviction_loop_done (s s' : State) :
  eviction_loop cfg answers s = Done s'
  → ∃ sl, reaches cfg answers s sl
      ∧ ((files sl = [] ∧ s' = sl) ∨ loop_body cfg answers sl = Break s').
Proof.
  remember (length (files s)) as n eqn:Hn. revert s Hn.
  induction n as [|n IH]; intros s Hn; rewrite eviction_loop_unfold;
    destruct (loop_body cfg answers s) as [s1|s1|s1|e] eqn:Hbody;
    try done; intros Hdone;
    try (injection Hdone as Hdone; subst s').
  - apply loop_body_exit in Hbody as [Hq ->].
    exists s. split; [constructor | by left].
  - exists s. split; [constructor | by right].
  - apply loop_body_continue in Hbody as (f & nc & Hq & _).
    rewrite Hq in Hn. done.
  - apply loop_body_exit in Hbody as [Hq ->].
    exists s. split; [constructor | by left].
  - exists s. split; [constructor | by right].
  - pose proof Hbody as Hb.
    apply loop_body_continue in Hb as (f & nc & Hq & _).
    rewrite Hq in Hn. injection Hn as Hn.
    destruct (IH s1 Hn Hdone) as (sl & Hreach & Hend).
    exists sl. split; [by eapply reaches_first | done].
Qed.

(** A queue whose files all have their priority raises nothing. *)
Lemma eviction_loop_classified (s : State) :
  Forall (λ f, is_Some (cleanup_priority f)) (files s)
  → ∃ s', eviction_loop cfg answers s = Done s'.
Proof.
  remember (files s) as q eqn:Hq. intros Hall. revert s Hq.
  induction Hall as [|f q [p Hp] Hall IH]; intros s Hq;
    rewrite eviction_loop_unfold.
  - rewrite loop_body_nil by done. eauto.
  - destruct (loop_body cfg answers s) as [s1|s1|s1|e] eqn:Hbody; eauto.
    + apply loop_body_continue in Hbody as (g & nc & Hq' & _).
      apply IH. congruence.
    + exfalso. unfold loop_body in Hbody. rewrite <- Hq in Hbody.
      unfold need_clean in Hbody. rewrite Hp in Hbody.
      destruct (over_size _ _), (max_priority cfg) as [mp|];
        try destruct (p <=? mp); simpl in Hbody;
        repeat match type of Hbody with
               | context [if ?b then _ else _] => destruct b
               | context [removal ?c ?a ?n ?x ?y] =>
                   destruct (removal c a n x y)
               end; done.
Qed.

End Loop.

(** C8.  The eviction loop terminates, whatever the queue and the limits.
    A pass that does not leave the loop takes the front file off the queue;
    with more fuel than the queue is long the loop returns, and what it
    returns does not depend on the fuel; it ends on the empty queue or on
    its [break]; it raises nothing when every file has its priority.  On the
    empty queue it makes no pass, and a package without files is reported
    with zero bytes cleaned. *)
Theorem eviction_loop_terminates (cfg : Config) (answers : nat → bool)
    (s : State) :
  (∀ s1 s2, loop_body cfg answers s1 = Continue s2
     → ∃ f, files s1 = f :: files s2)
  ∧ (∀ fuel, (length (files s) < fuel)%nat
       → while_loop fuel cfg answers s = eviction_loop cfg answers s
         ∧ while_loop fuel cfg answers s ≠ OutOfFuel)
  ∧ (∀ s', eviction_loop cfg answers s = Done s'
       → ∃ sl, reaches cfg answers s sl
           ∧ ((files sl = [] ∧ s' = sl)
              ∨ loop_body cfg answers sl = Break s'))
  ∧ (Forall (λ f, is_Some (cleanup_priority f)) (files s)
     → ∃ s', eviction_loop cfg answers s = Done s')
  ∧ (files s = [] → eviction_loop cfg answers s = Done s)
  ∧ (∀ versions label,
       ∃ s', cleanup_packages (mkPackage versions []) label cfg answers
             = Done s'
         ∧ cleanup_size s' = 0 ∧ evicted s' = []
         ∧ trace s' = if verbose cfg then [EvCleanedSize 0] else []).
Proof.
  split; [|split; [|split; [|split; [|split]]]].
  - intros s1 s2 Hbody.
    apply loop_body_continue in Hbody as (f & nc & Hq & _). eauto.
  - intros fuel Hfuel.
    assert (Hmore : while_loop fuel cfg answers s
                    = eviction_loop cfg answers s).
    { apply while_loop_more; [|lia]. apply while_loop_enough. lia. }
    split; [done|]. rewrite Hmore. apply while_loop_enough. lia.
  - apply eviction_loop_done.
  - apply eviction_loop_classified.
  - intros Hq. by rewrite eviction_loop_unfold, loop_body_nil.
  - intros versions label.
    assert (Hfiles : filter_label label [] = []) by (by destruct label).
    assert (Hcl : classify versions [] = []).
    { destruct (classify_upto versions []) as [Hlen _].
      by apply nil_length_inv. }
    unfold cleanup_packages. simpl. rewrite Hfiles, Hcl. simpl.
    eexists. split; [done|]. simpl. by destruct (verbose cfg).
Qed.

(** ** One pass of the loop *)

Lemma need_clean_iff_spec (cfg : Config) (total : Z) (queue : list File)
    (f : File) (p : Z) :
  cleanup_priority f = Some p
  → ∃ nc, need_clean cfg total queue f = Ok nc
      ∧ (nc = true ↔ need_clean_spec cfg total (length queue) p).
Proof.
  intros Hp. unfold need_clean, need_clean_spec, over_size, over_count.
  rewrite Hp.
  destruct (max_size cfg) as [m|], (max_priority cfg) as [mp|],
    (keep_count cfg) as [k|];
    repeat match goal with
           | |- context [?a >? ?b] => destruct (Z.gtb_spec a b)
           | |- context [?a <=? ?b] => destruct (Z.leb_spec a b)
           end;
    (eexists; split; [reflexivity|]);
    (split; [intros ?; try done; eauto 6 with lia
            |intros [(? & ? & ?)|[(? & ? & ?)|(? & ? & ?)]];
               simplify_eq; try done; lia]).
Qed.

Lemma other_group_iff_differs (s : State) (f : File) :
  markers_ok s
  → other_group s (file_version f) (build_number f) = true
    ↔ differs_from_last_deleted s f.
Proof.
  intros [Hv Hb]. unfold other_group, differs_from_last_deleted, group_of.
  rewrite Hv, Hb. destruct (last (evicted s)) as [g|]; simpl; [|done].
  rewrite orb_true_iff, !negb_true_iff, !bool_decide_eq_false.
  split.
  - intros [H|H] [= ? ?]; apply H; congruence.
  - intros H. destruct (decide (file_version g = file_version f)) as [Hg|Hg];
      [right | by left].
    intros [= ?]. apply H. congruence.
Qed.

(** C4.  At a pass of the loop with front file [f]: [need_clean] is true
    exactly when the size cap is set and exceeded, or the priority cap is
    set and the priority of [f] is at or below it, or the keep count is set
    and the queue is longer; the loop stops exactly when [need_clean] is
    false and the pair of [f] is not the pair of the file deleted last (or
    nothing was deleted), and then no further file is looked at; in every
    other case the pass takes [f] off the queue, accounts for it and the
    loop goes on with the next file.  With the size cap satisfied and no
    other limit the loop stops at the first file and deletes nothing. *)
Theorem loop_pass_decision (cfg : Config) (answers : nat → bool)
    (queue : list File) (total : Z) :
  (∀ s f rest p,
     reaches cfg answers (initial_state queue total) s
     → files s = f :: rest
     → cleanup_priority f = Some p
     → ∃ nc, need_clean cfg (total_size s) (files s) f = Ok nc
         ∧ (nc = true
            ↔ need_clean_spec cfg (total_size s) (length (files s)) p)
         ∧ ((∃ s', loop_body cfg answers s = Break s')
            ↔ nc = false ∧ differs_from_last_deleted s f)
         ∧ (∀ s', loop_body cfg answers s = Break s'
             → eviction_loop cfg answers (initial_state queue total)
               = Done s'
               ∧ files s' = f :: rest ∧ evicted s' = evicted s
               ∧ trace s' = trace s ∧ cleanup_size s' = cleanup_size s)
         ∧ ((∃ s', loop_body cfg answers s = Continue s')
            ↔ ¬ (nc = false ∧ differs_from_last_deleted s f))
         ∧ (∀ s', loop_body cfg answers s = Continue s'
             → reaches cfg answers (initial_state queue total) s'
               ∧ eviction_loop cfg answers (initial_state queue total)
                 = eviction_loop cfg answers s'
               ∧ files s' = rest ∧ evicted s' = evicted s ++ [f]
               ∧ total_size s' = total_size s - file_size f
               ∧ cleanup_size s' = cleanup_size s + file_size f))
  ∧ (∀ m, max_size cfg = Some m → max_priority cfg = None
       → keep_count cfg = None → total ≤ m
       → eviction_loop cfg answers (initial_state queue total)
         = Done (initial_state queue total)).
Proof.
  split.
  - intros s f rest p Hreach Hq Hp.
    destruct (need_clean_iff_spec cfg (total_size s) (files s) f p Hp)
      as (nc & Hnc & Hspec).
    assert (Hok : markers_ok s)
      by (by eapply reaches_markers_ok; [|exact Hreach]).
    exists nc. split; [done|]. split; [done|].
    split; [split|]; [| |split; [|split; [split|]]].
    + intros [s' Hbody]. apply loop_body_break in Hbody
        as (g & Hg & Hnc' & Hother & _).
      rewrite Hq in Hg. injection Hg as <-.
      split; [congruence | by apply other_group_iff_differs].
    + intros [-> Hdiff]. apply other_group_iff_differs in Hdiff; [|done].
      unfold loop_body. rewrite Hq in *. rewrite Hnc, Hdiff. simpl. eauto.
    + intros s' Hbody.
      rewrite (reaches_eviction_loop _ _ _ _ Hreach).
      rewrite eviction_loop_unfold, Hbody. split; [done|].
      apply loop_body_break in Hbody
        as (_ & _ & _ & _ & Hf & _ & Hc & Ht & _ & He & _).
      by rewrite Hf, He, Ht, Hc, Hq.
    + intros [s' Hbody] [Hfalse Hdiff].
      apply loop_body_continue in Hbody as (g & nc' & Hg & Hnc' & Hgo & _).
      rewrite Hq in Hg. injection Hg as <- _.
      rewrite Hnc in Hnc'. injection Hnc' as <-.
      apply (other_group_iff_differs s f Hok) in Hdiff.
      destruct Hgo; congruence.
    + intros Hnot.
      assert (Hgo : negb nc
                    && other_group s (file_version f) (build_number f)
                    = false).
      { destruct nc; [done|]. simpl.
        destruct (other_group s (file_version f) (build_number f)) eqn:Ho;
          [|done].
        exfalso. apply Hnot. split; [done|].
        by apply other_group_iff_differs. }
      unfold loop_body. rewrite Hq in *. rewrite Hnc, Hgo.
      destruct (removal cfg answers (asked s) f nc). eauto.
    + intros s' Hbody.
      assert (Hreach' : reaches cfg answers (initial_state queue total) s')
        by (by eapply reaches_pass).
      split; [done|].
      split; [by apply reaches_eviction_loop|].
      apply loop_body_continue in Hbody
        as (g & nc' & Hg & _ & _ & Ht & Hc & _ & _ & _ & _ & He).
      rewrite Hq in Hg. injection Hg as <- <-. done.
  - intros m Hm Hmp Hk Hle. rewrite eviction_loop_unfold.
    unfold loop_body, need_clean, over_size, over_count. simpl.
    destruct queue as [|f rest]; [done|].
    rewrite Hm, Hmp, Hk. destruct (Z.gtb_spec total m); [lia|]. done.
Qed.

(** C9.  Outside a dry run and without [force], when the operator declines
    the file at the front, the registry is not called; the file still leaves
    the queue, its size is taken off the running total and added to the
    cleaned size, and its pair becomes the marker of the last deleted group.
    So the cleaned size can count bytes that were kept, and a file of the
    same pair that follows can be removed though it needed no cleaning. *)
Theorem declined_confirmation :
  (∀ (cfg : Config) (answers : nat → bool) (s : State) (f : File)
     (rest : list File) (nc : bool),
     dry_run cfg = false
     → force cfg = false
     → files s = f :: rest
     → need_clean cfg (total_size s) (files s) f = Ok nc
     → negb nc && other_group s (file_version f) (build_number f) = false
     → answers (asked s) = false
     → ∃ s', loop_body cfg answers s = Continue s'
         ∧ trace s' = trace s ++ [EvBoolInput (file_full_name f) false]
         ∧ files s' = rest
         ∧ total_size s' = total_size s - file_size f
         ∧ cleanup_size s' = cleanup_size s + file_size f
         ∧ last_version s' = Some (file_version f)
         ∧ last_build s' = Some (build_number f))
  ∧ (∃ s, cleanup_packages siblings None cap_150 decline_first = Done s
       ∧ trace s
         = [EvBoolInput "u/pkg/1.0.0/linux-64/pkg-1.0.0-0.conda" false;
            EvBoolInput "u/pkg/1.0.0/win-64/pkg-1.0.0-0.conda" true;
            EvRemoveDist "u/pkg/1.0.0/win-64/pkg-1.0.0-0.conda"]
       ∧ cleanup_size s = 200
       ∧ files s = []).
Proof.
  split.
  - intros cfg answers s f rest nc Hdry Hforce Hq Hnc Hgo Hans.
    unfold loop_body. rewrite Hq in *. rewrite Hnc, Hgo.
    unfold removal. rewrite Hdry, Hforce, Hans. simpl.
    eexists. split; [reflexivity|]. done.
  - eexists. split; [vm_compute; reflexivity|]. done.
Qed.

(** ** Dry runs *)

Section DryRun.

Variable cfg : Config.
Hypothesis Hdry : dry_run cfg = true.

(** A dry run asks nothing and calls nothing. *)
Lemma removal_dry_run (answers : nat → bool) (n : nat) (f : File)
    (nc : bool) :
  removal cfg answers n f nc
  = (if verbose cfg then [EvRemoving (file_full_name f) nc] else [], n).
Proof. unfold removal. by rewrite Hdry. Qed.

Lemma loop_body_dry_run (answers1 answers2 : nat → bool) (s : State) :
  loop_body cfg answers1 s = loop_body cfg answers2 s.
Proof.
  unfold loop_body. destruct (files s) as [|f rest]; [done|].
  destruct (need_clean _ _ _ _) as [nc|e]; [|done].
  by rewrite !removal_dry_run.
Qed.

Lemma while_loop_dry_run (answers1 answers2 : nat → bool) (fuel : nat)
    (s : State) :
  while_loop fuel cfg answers1 s = while_loop fuel cfg answers2 s.
Proof.
  revert s. induction fuel as [|fuel IH]; intros s; [done|]. simpl.
  rewrite (loop_body_dry_run answers1 answers2).
  by destruct (loop_body cfg answers2 s).
Qed.

Lemma reaches_dry_run (answers : nat → bool) (s0 s : State) :
  reaches cfg answers s0 s
  → asked s = asked s0
    ∧ (Forall (λ e, is_output e = true) (trace s0)
       → Forall (λ e, is_output e = true) (trace s)).
Proof.
  induction 1 as [|s1 s2 s3 _ [IHa IHt] Hbody]; [done|].
  apply loop_body_continue in Hbody
    as (f & nc & _ & _ & _ & _ & _ & _ & _ & Ht & Ha & _).
  rewrite removal_dry_run in Ht, Ha. simpl in *.
  split; [congruence|]. intros H0. rewrite Ht.
  apply Forall_app. split; [by apply IHt|].
  destruct (verbose cfg); by repeat constructor.
Qed.

End DryRun.

(** C7.  A dry run is a function of the snapshot and of the limits alone:
    it puts no question to the operator and makes no call to the registry,
    so the snapshot is the same for the next run, and two dry runs on it end
    in the same state, with the same cleaned size and the same files
    selected, whatever the operator would have answered. *)
Theorem dry_run_deterministic (package : Package) (label : option string)
    (cfg : Config) (answers1 answers2 : nat → bool) :
  dry_run cfg = true
  → cleanup_packages package label cfg answers1
    = cleanup_packages package label cfg answers2
    ∧ (∀ s1 s2,
         cleanup_packages package label cfg answers1 = Done s1
         → cleanup_packages package label cfg answers2 = Done s2
         → cleanup_size s1 = cleanup_size s2 ∧ evicted s1 = evicted s2)
    ∧ (∀ s, cleanup_packages package label cfg answers1 = Done s
         → asked s = 0%nat ∧ Forall (λ e, is_output e = true) (trace s)).
Proof.
  intros Hdry.
  assert (Heq : cleanup_packages package label cfg answers1
                = cleanup_packages package label cfg answers2).
  { unfold cleanup_packages. destruct (sort_files _) as [queue|e]; [|done].
    unfold eviction_loop.
    by rewrite (while_loop_dry_run cfg Hdry answers1 answers2). }
  split; [done|]. split.
  - intros s1 s2 H1 H2. rewrite Heq, H2 in H1. by injection H1 as <-.
  - intros s. unfold cleanup_packages.
    destruct (sort_files _) as [queue|e]; [|done].
    destruct (eviction_loop cfg answers1 _) as [s0| |] eqn:Hloop; try done.
    intros [= <-]. simpl.
    apply eviction_loop_done in Hloop as (sl & Hreach & Hend).
    apply (reaches_dry_run cfg Hdry) in Hreach as [Ha Ht]. simpl in *.
    assert (Hs0 : asked s0 = asked sl ∧ trace s0 = trace sl).
    { destruct Hend as [[_ ->]|Hbreak]; [done|].
      apply loop_body_break in Hbreak
        as (_ & _ & _ & _ & _ & _ & _ & Htr & Hask & _). done. }
    destruct Hs0 as [-> ->]. split; [done|].
    apply Forall_app. split; [by apply Ht|].
    destruct (verbose cfg); by repeat constructor.
Qed.

(** ** The sort *)

Section Sort.

Lemma string_ltb_asym (a b : string) :
  String.ltb a b = true → String.ltb b a = false.
Proof.
  unfold String.ltb. rewrite (String.compare_antisym a b).
  by destruct (String.compare b a).
Qed.

Lemma key_lt_asym (a b : Z * string) :
  key_lt a b = true → key_lt b a = false.
Proof.
  unfold key_lt. destruct a as [p t], b as [q u]; simpl.
  rewrite orb_true_iff, andb_true_iff, Z.ltb_lt, Z.eqb_eq.
  intros [Hlt|[-> Hlt]].
  - destruct (Z.ltb_spec q p); [lia|].
    destruct (Z.eqb_spec q p); [lia|]. done.
  - rewrite Z.ltb_irrefl, Z.eqb_refl. simpl. by apply string_ltb_asym.
Qed.

Lemma insert_by_key_perm x l : insert_by_key x l ≡ₚ x :: l.
Proof.
  induction l as [|y l IH]; simpl; [done|].
  destruct (key_lt y.1 x.1); [|done].
  rewrite IH. apply Permutation_swap.
Qed.

Lemma sort_decorated_perm l : sort_decorated l ≡ₚ l.
Proof.
  induction l as [|x l IH]; simpl; [done|].
  by rewrite insert_by_key_perm, IH.
Qed.

Lemma insert_by_key_HdRel y x l :
  decorated_le y x → HdRel decorated_le y l
  → HdRel decorated_le y (insert_by_key x l).
Proof.
  intros Hyx Hyl. destruct l as [|z l]; simpl; [by constructor|].
  destruct (key_lt z.1 x.1); constructor; [|done].
  by apply HdRel_inv in Hyl.
Qed.

Lemma insert_by_key_sorted x l :
  Sorted decorated_le l → Sorted decorated_le (insert_by_key x l).
Proof.
  induction 1 as [|y l Hs IH Hhd]; simpl; [by repeat constructor|].
  destruct (key_lt y.1 x.1) eqn:Hlt.
  - constructor; [done|]. apply insert_by_key_HdRel; [|done].
    by apply key_lt_asym.
  - constructor; [by constructor|]. by constructor.
Qed.

Lemma sort_decorated_sorted l : Sorted decorated_le (sort_decorated l).
Proof.
  induction l as [|x l IH]; simpl; [constructor|].
  by apply insert_by_key_sorted.
Qed.

Lemma sorted_files_of_decorated (d : list ((Z * string) * File)) :
  Forall (λ kf, sort_key kf.2 = Ok kf.1) d
  → Sorted decorated_le d
  → Sorted file_key_le (snd <$> d).
Proof.
  intros Hkeys. induction 1 as [|a d Hs IH Hhd]; [constructor|].
  apply Forall_cons in Hkeys as [Ha Hd]. rewrite fmap_cons.
  constructor; [by apply IH|].
  destruct Hhd as [|b d' Hab]; [constructor|]. rewrite fmap_cons.
  constructor. apply Forall_cons in Hd as [Hb _].
  by exists a.1, b.1.
Qed.

(** The queue is the list of the files in ascending order of the keys. *)
Lemma sort_files_spec (l queue : list File) :
  sort_files l = Ok queue
  → queue ≡ₚ l
    ∧ Sorted file_key_le queue
    ∧ Forall (λ f, is_Some (cleanup_priority f)) queue.
Proof.
  unfold sort_files. destruct (decorate l) as [d|e] eqn:Hd; [|done].
  intros [= <-].
  assert (Hall : Forall (λ f, is_Some (cleanup_priority f)) l).
  { revert d Hd. induction l as [|f l IH]; intros d Hd;
      [constructor|].
    simpl in Hd. unfold sort_key in Hd.
    destruct (cleanup_priority f) as [p|] eqn:Hp; [|done].
    destruct (decorate l) as [d'|]; [|done].
    constructor; [by rewrite Hp | by eapply IH]. }
  destruct (decorate_ok l Hall) as (d' & Hd' & Hsnd & Hkeys).
  rewrite Hd in Hd'. injection Hd' as <-.
  assert (Hperm : snd <$> sort_decorated d ≡ₚ l).
  { rewrite <- Hsnd. apply fmap_Permutation, sort_decorated_perm. }
  split; [done|]. split.
  - apply sorted_files_of_decorated; [|apply sort_decorated_sorted].
    by rewrite sort_decorated_perm.
  - by rewrite Hperm.
Qed.

Lemma file_key_le_priority (f g : File) :
  file_key_le f g → priority_le f g.
Proof.
  intros (kf & kg & Hf & Hg & Hle). unfold sort_key in Hf, Hg.
  destruct (cleanup_priority f) as [p|] eqn:Hp; [|done].
  destruct (cleanup_priority g) as [q|] eqn:Hq; [|done].
  simplify_eq. exists p, q. split; [done|]. split; [done|].
  unfold key_lt in Hle. simpl in Hle.
  apply orb_false_iff in Hle as [Hlt _]. by apply Z.ltb_ge in Hlt.
Qed.

(** In the queue no file stands before a file of lower priority. *)
Lemma sorted_by_priority (queue : list File) :
  Sorted file_key_le queue → StronglySorted priority_le queue.
Proof.
  intros Hs. apply Sorted_StronglySorted.
  - intros f g h (p & q & Hf & Hg & Hpq) (q' & r & Hg' & Hh & Hqr).
    exists p, r. simplify_eq. repeat split; [done..|lia].
  - induction Hs as [|f l _ IH Hhd]; constructor; [done|].
    destruct Hhd; constructor. by apply file_key_le_priority.
Qed.

End Sort.

(** ** Runs under one limit *)

Section Steps.

Variables (cfg : Config) (answers : nat → bool).

Lemma loop_body_stop (s : State) (f : File) (rest : list File) :
  files s = f :: rest
  → need_clean cfg (total_size s) (files s) f = Ok false
  → other_group s (file_version f) (build_number f) = true
  → ∃ s', eviction_loop cfg answers s = Done s'
      ∧ evicted s' = evicted s ∧ files s' = files s.
Proof.
  intros Hq Hnc Hother. rewrite eviction_loop_unfold. unfold loop_body.
  rewrite Hq in *. rewrite Hnc, Hother. simpl. eauto.
Qed.

Lemma loop_body_go (s : State) (f : File) (rest : list File) (nc : bool) :
  files s = f :: rest
  → need_clean cfg (total_size s) (files s) f = Ok nc
  → negb nc && other_group s (file_version f) (build_number f) = false
  → ∃ s', loop_body cfg answers s = Continue s'
      ∧ files s' = rest ∧ evicted s' = evicted s ++ [f]
      ∧ last_version s' = Some (file_version f)
      ∧ last_build s' = Some (build_number f).
Proof.
  intros Hq Hnc Hgo. unfold loop_body. rewrite Hq in *.
  rewrite Hnc, Hgo. destruct (removal cfg answers (asked s) f nc).
  eexists. split; [reflexivity|]. done.
Qed.

Lemma other_group_after (s : State) (f g : File) :
  last_version s = Some (file_version f)
  → last_build s = Some (build_number f)
  → group_of f ≠ group_of g
  → other_group s (file_version g) (build_number g) = true.
Proof.
  intros Hv Hb Hne. unfold other_group. rewrite Hv, Hb.
  apply orb_true_iff. rewrite !negb_true_iff, !bool_decide_eq_false.
  destruct (decide (file_version f = file_version g)) as [Hfg|Hfg];
    [right | by left].
  intros [= ?]. apply Hne. unfold group_of. congruence.
Qed.

End Steps.

Section KeepCount.

Variables (cfg : Config) (answers : nat → bool) (N : Z).
Hypothesis Hkeep : keep_count cfg = Some N.
Hypothesis Hsize : max_size cfg = None.
Hypothesis Hprio : max_priority cfg = None.

Lemma need_clean_keep_count (total : Z) (queue : list File) (f : File) :
  need_clean cfg total queue f = Ok (Z.of_nat (length queue) >? N).
Proof.
  unfold need_clean, over_size, over_count.
  by rewrite Hsize, Hprio, Hkeep.
Qed.

Lemma excess_cons_over (f : File) (rest : list File) :
  Z.of_nat (length (f :: rest)) > N
  → excess N (f :: rest) = S (excess N rest).
Proof. unfold excess. simpl length. lia. Qed.

Lemma excess_within (queue : list File) :
  Z.of_nat (length queue) ≤ N → excess N queue = 0%nat.
Proof. unfold excess. lia. Qed.

(** The loop under a keep count alone, from any state. *)
Lemma keep_count_loop (queue : list File) (s : State) :
  files s = queue
  → (excess N queue = 0%nat
     → ∀ f, head queue = Some f
            → other_group s (file_version f) (build_number f) = true)
  → no_overrun queue (excess N queue)
  → ∃ s', eviction_loop cfg answers s = Done s'
      ∧ evicted s' = evicted s ++ take (excess N queue) queue
      ∧ files s' = drop (excess N queue) queue.
Proof.
  revert s. induction queue as [|f rest IH]; intros s Hq Hfront Hover.
  - rewrite eviction_loop_unfold, loop_body_nil by done.
    exists s. by rewrite take_nil, drop_nil, app_nil_r.
  - pose proof (need_clean_keep_count (total_size s) (files s) f) as Hnc.
    rewrite Hq in Hnc at 2.
    destruct (Z.gtb_spec (Z.of_nat (length (f :: rest))) N) as [Hgt|Hle].
    + rewrite (excess_cons_over f rest) in * by lia.
      destruct (loop_body_go cfg answers s f rest true Hq Hnc eq_refl)
        as (s1 & Hbody & Hq1 & He1 & Hv1 & Hb1).
      destruct (IH s1 Hq1) as (s' & Hdone & He & Hf).
      * intros Hk g Hg. apply (other_group_after s1 f g Hv1 Hb1).
        destruct rest as [|g' rest']; [done|]. injection Hg as ->.
        rewrite Hk in Hover. by apply (Hover f g); [lia|..].
      * intros g h Hpos Hg Hh. apply (Hover g h); [lia| |done].
        replace (S (excess N rest) - 1)%nat
          with (S (excess N rest - 1))%nat by lia.
        done.
      * exists s'. rewrite eviction_loop_unfold, Hbody.
        split; [done|]. rewrite He, He1, <- app_assoc. done.
    + rewrite (excess_within (f :: rest)) in * by lia.
      destruct (loop_body_stop cfg answers s f rest Hq Hnc)
        as (s' & Hdone & He & Hf); [by apply Hfront|].
      exists s'. rewrite He, Hf, Hq, app_nil_r. done.
Qed.

End KeepCount.

(** C6.  With a keep count [N] and no other limit, the loop evicts the files
    from the front of the queue, which is in ascending order of
    [(cleanup_priority, upload_time)], as long as more than [N] are left,
    and keeps the rest: exactly [N] files when the queue had that many,
    provided that the file at the front when the count is reached is not of
    the pair of the file evicted last. *)
Theorem keep_count_only (package : Package) (label : option string)
    (cfg : Config) (answers : nat → bool) (N : Z) (queue : list File) :
  keep_count cfg = Some N
  → max_size cfg = None
  → max_priority cfg = None
  → sort_files (classify (pkg_versions package)
                         (filter_label label (pkg_files package)))
    = Ok queue
  → no_overrun queue (excess N queue)
  → queue ≡ₚ classify (pkg_versions package)
                      (filter_label label (pkg_files package))
    ∧ Sorted file_key_le queue
    ∧ ∃ s, cleanup_packages package label cfg answers = Done s
        ∧ evicted s = take (excess N queue) queue
        ∧ files s = drop (excess N queue) queue
        ∧ (0 ≤ N ≤ Z.of_nat (length queue)
           → Z.of_nat (length (files s)) = N).
Proof.
  intros Hkeep Hsize Hprio Hsort Hover.
  destruct (sort_files_spec _ _ Hsort) as (Hperm & Hsorted & _).
  split; [done|]. split; [done|].
  destruct (keep_count_loop cfg answers N Hkeep Hsize Hprio queue
              (initial_state queue
                 (total_size_of (filter_label label (pkg_files package)))))
    as (s & Hdone & He & Hf); [done| |done|].
  { intros _ f _. done. }
  exists (print_cleaned_size cfg s). unfold cleanup_packages.
  rewrite Hsort, Hdone. split; [done|]. simpl in *.
  split; [done|]. split; [done|].
  intros HN. rewrite Hf, length_drop. unfold excess. lia.
Qed.

Section MaxPriority.

Variables (cfg : Config) (answers : nat → bool) (mp : Z).
Hypothesis Hprio : max_priority cfg = Some mp.
Hypothesis Hsize : max_size cfg = None.
Hypothesis Hkeep : keep_count cfg = None.

Lemma need_clean_max_priority (total : Z) (queue : list File) (f : File) :
  is_Some (cleanup_priority f)
  → need_clean cfg total queue f = Ok (at_most mp f).
Proof.
  intros [p Hp]. unfold need_clean, over_size, over_count, at_most.
  rewrite Hsize, Hprio, Hkeep, Hp. by destruct (p <=? mp).
Qed.

Lemma priority_le_at_most (f g : File) :
  priority_le f g → at_most mp f = false → at_most mp g = false.
Proof.
  intros (p & q & Hp & Hq & Hle). unfold at_most. rewrite Hp, Hq.
  rewrite !Z.leb_gt. lia.
Qed.

Lemma filter_none_at_most (l : list File) :
  Forall (λ g, at_most mp g = false) l
  → filter (λ f, at_most mp f = true) l = []
    ∧ filter (λ f, at_most mp f = false) l = l.
Proof.
  induction 1 as [|g l Hg _ [IH1 IH2]]; [done|].
  rewrite !filter_cons, IH1, IH2.
  rewrite decide_False by congruence. by rewrite decide_True.
Qed.

(** The loop under a priority cap alone, from any state: it takes the
    files at or below the cap, and stops at the first file above it when
    no such file is of the pair of a file taken. *)
Lemma max_priority_loop (queue : list File) (s : State) :
  files s = queue
  → Forall (λ f, is_Some (cleanup_priority f)) queue
  → StronglySorted priority_le queue
  → (∀ g, g ∈ queue → at_most mp g = false
          → other_group s (file_version g) (build_number g) = true)
  → (∀ f g, f ∈ queue → g ∈ queue
            → at_most mp f = true → at_most mp g = false
            → group_of f ≠ group_of g)
  → ∃ s', eviction_loop cfg answers s = Done s'
      ∧ evicted s' = evicted s ++ filter (λ f, at_most mp f = true) queue
      ∧ files s' = filter (λ f, at_most mp f = false) queue.
Proof.
  revert s.
  induction queue as [|f rest IH]; intros s Hq Hall Hsorted Hmark Hapart.
  - rewrite eviction_loop_unfold, loop_body_nil by done.
    exists s. by rewrite app_nil_r.
  - apply Forall_cons in Hall as [Hf Hall].
    apply StronglySorted_inv in Hsorted as [Hsorted Hle].
    pose proof (need_clean_max_priority (total_size s) (files s) f Hf)
      as Hnc.
    destruct (at_most mp f) eqn:Hlow.
    + destruct (loop_body_go cfg answers s f rest true Hq Hnc eq_refl)
        as (s1 & Hbody & Hq1 & He1 & Hv1 & Hb1).
      destruct (IH s1 Hq1 Hall Hsorted) as (s' & Hdone & He & Hfiles).
      * intros g Hg Hhigh. apply (other_group_after s1 f g Hv1 Hb1).
        apply Hapart; [by left | by right | done..].
      * intros g h Hg Hh. apply Hapart; by right.
      * exists s'. rewrite eviction_loop_unfold, Hbody. split; [done|].
        rewrite !filter_cons, Hlow. rewrite decide_True by done.
        rewrite decide_False by done.
        by rewrite He, He1, <- app_assoc.
    + destruct (loop_body_stop cfg answers s f rest Hq Hnc)
        as (s' & Hdone & He & Hfiles).
      { apply Hmark; [by left | done]. }
      exists s'. split; [done|].
      destruct (filter_none_at_most (f :: rest)) as [-> ->].
      { constructor; [done|]. eapply Forall_impl; [exact Hle|].
        intros g Hg. by eapply priority_le_at_most. }
      by rewrite He, Hfiles, Hq, app_nil_r.
Qed.

Lemma groups_apart_spec (l : list File) (f g : File) :
  groups_apart mp l = true
  → f ∈ l → g ∈ l → at_most mp f = true → at_most mp g = false
  → group_of f ≠ group_of g.
Proof.
  intros H Hf Hg Hlow Hhigh. unfold groups_apart in H.
  apply list_elem_of_In in Hf. apply list_elem_of_In in Hg.
  pose proof (proj1 (forallb_forall _ _) H f Hf) as H1.
  pose proof (proj1 (forallb_forall _ _) H1 g Hg) as H2.
  rewrite Hlow, Hhigh in H2. simpl in H2.
  by apply negb_true_iff, bool_decide_eq_false in H2.
Qed.

(** With a priority cap alone, on a package in which no file above the
    cap shares the pair of a file at or below it, the files evicted are
    the files at or below the cap, and the others stay. *)
Lemma max_priority_only (package : Package) (label : option string) :
  let classified := classify (pkg_versions package)
                             (filter_label label (pkg_files package)) in
  (∀ f, f ∈ filter_label label (pkg_files package)
        → file_version f ∈ pkg_versions package)
  → groups_apart mp classified = true
  → ∃ s, cleanup_packages package label cfg answers = Done s
      ∧ (∀ f, f ∈ evicted s ↔ f ∈ classified ∧ at_most mp f = true)
      ∧ (∀ f, f ∈ files s ↔ f ∈ classified ∧ at_most mp f = false).
Proof.
  intros classified Hversions Hapart.
  destruct (classify_all_keys _ _ Hversions) as [_ [queue Hsort]].
  destruct (sort_files_spec _ _ Hsort) as (Hperm & Hsorted & Hall).
  destruct (max_priority_loop queue
              (initial_state queue
                 (total_size_of (filter_label label (pkg_files package)))))
    as (s & Hdone & He & Hf); [done|done| |done| |].
  { by apply sorted_by_priority. }
  { intros f g Hfq Hgq Hlow Hhigh. rewrite Hperm in Hfq, Hgq.
    by apply (groups_apart_spec classified). }
  exists (print_cleaned_size cfg s). unfold cleanup_packages.
  rewrite Hsort, Hdone. split; [done|]. simpl in *.
  rewrite He, Hf. fold classified in Hperm.
  split; intros f; rewrite list_elem_of_filter, Hperm; tauto.
Qed.

End MaxPriority.

(** ** The example of the help text *)

(** C3, as the code has it.  On the version sequence as it is written, no
    version is a development version, for want of a third numeric
    component, and the eight files are given the priorities 1, 4, 4, 4, 1,
    4, 1, 4.  With the versions written with three components,
    ["1.0.0", "1.0.0", "1.2.0dev1", "2.0.0", "2.1.0dev1", "2.1.0dev2"],
    the files are given the priorities of the table: 1, 4, 2, 4, 0, 2, 3, 4.
    In both cases, with [max_priority = 1] and no other limit, the files
    evicted are exactly the files of priority 1 or less, whatever the sizes
    and the upload times. *)
Theorem help_example_priorities (size : nat → Z) (time : nat → string) :
  priorities (help_example_written size time)
  = Some <$> [1; 4; 4; 4; 1; 4; 1; 4]
  ∧ priorities (help_example_triplet size time)
    = Some <$> [1; 4; 2; 4; 0; 2; 3; 4]
  ∧ ∀ package cfg answers,
      package = help_example_written size time
      ∨ package = help_example_triplet size time
      → max_priority cfg = Some 1
      → max_size cfg = None
      → keep_count cfg = None
      → ∃ s, cleanup_packages package None cfg answers = Done s
          ∧ (∀ f, f ∈ evicted s
                  ↔ f ∈ classify (pkg_versions package) (pkg_files package)
                    ∧ at_most 1 f = true)
          ∧ (∀ f, f ∈ files s
                  ↔ f ∈ classify (pkg_versions package) (pkg_files package)
                    ∧ at_most 1 f = false).
Proof.
  split; [by vm_compute|]. split; [by vm_compute|].
  intros package cfg answers Hpkg Hprio Hsize Hkeep.
  apply (max_priority_only cfg answers 1 Hprio Hsize Hkeep package None).
  - apply Forall_forall. destruct Hpkg as [-> | ->]; repeat constructor.
  - destruct Hpkg as [-> | ->]; by vm_compute.
Qed.

(** C3, as it is stated, fails: on the version sequence
    ["1.0", "1.0", "1.2dev1", "2.0", "2.1dev1", "2.1dev2"] the classifier
    does not give the priorities 1, 4, 2, 4, 0, 2, 3, 4. *)
Lemma help_example_written_not_the_table :
  priorities (help_example_written one_kilobyte hour)
  ≠ Some <$> [1; 4; 2; 4; 0; 2; 3; 4].
Proof. by vm_compute. Qed.

(** ** Groups that are not contiguous in the queue *)

(** C2, on the code.  The version 1.0.0 has two artifacts of build 0, and the
    artifact of version 1.1.0 was uploaded between them; the three files have
    priority 4.  Under the size cap the loop removes the first artifact and
    stops at the file of version 1.1.0: the second artifact of the pair
    (1.0.0, 0) stays in the registry. *)
Theorem interleaved_group_left_behind :
  ∃ s a c b,
    cleanup_packages interleaved None cap_250_force never = Done s
    ∧ evicted s = [a] ∧ files s = [c; b]
    ∧ group_of b = group_of a
    ∧ group_of c ≠ group_of a
    ∧ trace s = [EvRemoveDist (file_full_name a)]
    ∧ file_full_name b = "u/pkg/1.0.0/win-64/pkg-1.0.0-0.conda".
Proof.
  do 4 eexists. split; [vm_compute; reflexivity|].
  repeat split; done.
Qed.

(** ** The theorems at work *)

Lemma classify_decision_table_witness :
  let package := help_example_triplet one_kilobyte hour in
  let f := conda_file "2.1.0dev1" 0 "pkg_v2.1dev1_bld-0" 1024 (hour 4) in
  pkg_files package !! 4%nat = Some f
  ∧ file_version f ∈ pkg_versions package
  ∧ classify (pkg_versions package) (pkg_files package) !! 4%nat
    = Some (set_cleanup_priority
              (table_priority (pkg_versions package) (pkg_files package) f)
              f).
Proof.
  intros package f.
  assert (Hf : pkg_files package !! 4%nat = Some f) by reflexivity.
  assert (Hv : file_version f ∈ pkg_versions package)
    by (vm_compute; repeat constructor).
  split; [exact Hf|]. split; [exact Hv|].
  exact (classify_decision_table _ _ _ _ Hf Hv).
Defined.

Lemma classify_then_sort_keys_witness :
  (∃ queue,
     sort_files (classify (pkg_versions siblings) (pkg_files siblings))
     = Ok queue)
  ∧ sort_files (classify (pkg_versions orphan) (pkg_files orphan))
    = Raised (KeyError "cleanup_priority").
Proof.
  split.
  - apply (proj1 (classify_then_sort_keys (pkg_versions siblings)
                                          (pkg_files siblings))).
    apply Forall_forall. vm_compute. repeat constructor.
  - apply (proj2 (classify_then_sort_keys (pkg_versions orphan)
                                          (pkg_files orphan))
             1%nat
             (conda_file "2.0.0" 0 "u/pkg/2.0.0/linux-64/pkg-2.0.0-0.conda"
                         100 "2023-02-01 10:00:00")).
    + reflexivity.
    + vm_compute. intros H. inversion H as [|? ? ? H']. inversion H'.
    + reflexivity.
Defined.

Lemma eviction_loop_terminates_witness :
  while_loop 3 cap_150 decline_first (start_of siblings)
  = eviction_loop cap_150 decline_first (start_of siblings)
  ∧ while_loop 3 cap_150 decline_first (start_of siblings) ≠ OutOfFuel.
Proof.
  apply (proj1 (proj2 (eviction_loop_terminates cap_150 decline_first
                                                 (start_of siblings)))).
  vm_compute. lia.
Defined.

Lemma loop_pass_decision_witness :
  (∃ s1 s2,
     loop_body cap_150 decline_first (start_of siblings) = Continue s1
     ∧ need_clean cap_150 (total_size s1) (files s1)
         (set_cleanup_priority 4
            (conda_file "1.0.0" 0 "u/pkg/1.0.0/win-64/pkg-1.0.0-0.conda"
                        100 "2023-01-01 11:00:00"))
       = Ok false
     ∧ loop_body cap_150 decline_first s1 = Continue s2
     ∧ files s2 = [] ∧ cleanup_size s2 = 200)
  ∧ (∃ s1 s2,
       loop_body cap_250_force never (start_of interleaved) = Continue s1
       ∧ loop_body cap_250_force never s1 = Break s2
       ∧ eviction_loop cap_250_force never (start_of interleaved) = Done s2
       ∧ evicted s2 = evicted s1).
Proof.
  split.
  - eassert (Hfirst : loop_body cap_150 decline_first (start_of siblings)
                      = Continue _) by (vm_compute; reflexivity).
    destruct (proj1 (loop_pass_decision cap_150 decline_first
                       (classify (pkg_versions siblings)
                                 (pkg_files siblings))
                       (total_size_of (pkg_files siblings)))
                _
                (set_cleanup_priority 4
                   (conda_file "1.0.0" 0
                      "u/pkg/1.0.0/win-64/pkg-1.0.0-0.conda" 100
                      "2023-01-01 11:00:00"))
                [] 4
                (reaches_pass _ _ _ _ _ (reaches_here _ _ _) Hfirst)
                eq_refl eq_refl)
      as (nc & Hnc & _ & _ & _ & Hgo & Hnext).
    assert (Hfalse : nc = false).
    { vm_compute in Hnc. by injection Hnc as <-. }
    destruct (proj2 Hgo) as [s2 Hsecond].
    { intros [_ Hdiff]. vm_compute in Hdiff. by apply Hdiff. }
    destruct (Hnext s2 Hsecond) as (_ & _ & Hq & _ & _ & Hc).
    eexists _, s2. split; [exact Hfirst|].
    split; [by rewrite Hnc, Hfalse|]. split; [exact Hsecond|].
    split; [exact Hq | exact Hc].
  - eassert (Hfirst : loop_body cap_250_force never (start_of interleaved)
                      = Continue _) by (vm_compute; reflexivity).
    destruct (proj1 (loop_pass_decision cap_250_force never
                       (classify (pkg_versions interleaved)
                                 (pkg_files interleaved))
                       (total_size_of (pkg_files interleaved)))
                _
                (set_cleanup_priority 4
                   (conda_file "1.1.0" 0
                      "u/pkg/1.1.0/linux-64/pkg-1.1.0-0.conda" 100
                      "2023-02-01 10:00:00"))
                _ 4
                (reaches_pass _ _ _ _ _ (reaches_here _ _ _) Hfirst)
                eq_refl eq_refl)
      as (nc & Hnc & _ & Hstop & Hend & _).
    assert (Hfalse : nc = false).
    { vm_compute in Hnc. by injection Hnc as <-. }
    destruct (proj2 Hstop) as [s2 Hsecond].
    { split; [exact Hfalse|]. vm_compute. discriminate. }
    destruct (Hend s2 Hsecond) as (Hdone & _ & He & _).
    eexists _, s2. split; [exact Hfirst|]. split; [exact Hsecond|].
    split; [exact Hdone | exact He].
Defined.

Lemma declined_confirmation_witness :
  ∃ s', loop_body cap_150 decline_first (start_of siblings) = Continue s'
    ∧ trace s'
      = [EvBoolInput "u/pkg/1.0.0/linux-64/pkg-1.0.0-0.conda" false]
    ∧ total_size s' = 100 ∧ cleanup_size s' = 100.
Proof.
  destruct (proj1 declined_confirmation cap_150 decline_first
              (start_of siblings)
              (set_cleanup_priority 4
                 (conda_file "1.0.0" 0
                    "u/pkg/1.0.0/linux-64/pkg-1.0.0-0.conda" 100
                    "2023-01-01 10:00:00"))
              (tail (files (start_of siblings))) true)
    as (s' & Hbody & Htrace & _ & Htotal & Hclean & _);
    try reflexivity.
  exists s'. split; [exact Hbody|]. split; [exact Htrace|].
  split; [exact Htotal | exact Hclean].
Defined.

Lemma dry_run_deterministic_witness :
  cleanup_packages (help_example_triplet one_kilobyte hour) None
                   priority_cap_1 never
  = cleanup_packages (help_example_triplet one_kilobyte hour) None
                     priority_cap_1 decline_first.
Proof.
  apply (dry_run_deterministic (help_example_triplet one_kilobyte hour) None
                               priority_cap_1 never decline_first).
  reflexivity.
Defined.

Lemma keep_count_only_witness :
  ∃ queue s,
    sort_files (classify (pkg_versions (help_example_triplet one_kilobyte
                                                             hour))
                         (pkg_files (help_example_triplet one_kilobyte
                                                          hour)))
    = Ok queue
    ∧ cleanup_packages (help_example_triplet one_kilobyte hour) None keep_2
                       never = Done s
    ∧ evicted s = take 6 queue
    ∧ Z.of_nat (length (files s)) = 2.
Proof.
  eexists.
  edestruct (keep_count_only (help_example_triplet one_kilobyte hour) None
               keep_2 never 2)
    as (_ & _ & s & Hdone & He & _ & Hlen).
  - reflexivity.
  - reflexivity.
  - reflexivity.
  - vm_compute. reflexivity.
  - intros f g _ Hf Hg. vm_compute in Hf, Hg.
    injection Hf as <-. injection Hg as <-. vm_compute. discriminate.
  - exists s. split; [reflexivity|]. split; [exact Hdone|].
    split; [exact He|]. apply Hlen. vm_compute. split; discriminate.
Defined.

Lemma help_example_priorities_witness :
  ∃ s, cleanup_packages (help_example_triplet one_kilobyte hour) None
                        priority_cap_1 never = Done s
    ∧ ∀ f, f ∈ evicted s
           ↔ f ∈ classify
                   (pkg_versions (help_example_triplet one_kilobyte hour))
                   (pkg_files (help_example_triplet one_kilobyte hour))
             ∧ at_most 1 f = true.
Proof.
  destruct (proj2 (proj2 (help_example_priorities one_kilobyte hour))
              (help_example_triplet one_kilobyte hour) priority_cap_1 never)
    as (s & Hdone & Hev & _).
  - right. reflexivity.
  - reflexivity.
  - reflexivity.
  - reflexivity.
  - exists s. split; [exact Hdone | exact Hev].
Defined.

(** * Further properties of the code *)

(** ** Build numbers *)

Lemma fold_left_max_spec (bs : list Z) (b : Z) :
  b ≤ fold_left Z.max bs b
  ∧ Forall (λ x, x ≤ fold_left Z.max bs b) bs
  ∧ (fold_left Z.max bs b = b ∨ fold_left Z.max bs b ∈ bs).
Proof.
  revert b. induction bs as [|x bs IH]; intros b; simpl.
  - split; [lia|]. split; [constructor | by left].
  - destruct (IH (Z.max b x)) as (Hge & Hall & Hin).
    split; [lia|]. split; [constructor; [lia | done]|].
    destruct Hin as [Heq|Hin]; [|right; by right].
    rewrite Heq. destruct (Z.max_spec b x) as [[_ ->]|[_ ->]];
      [right; by left | by left].
Qed.

Lemma max_build_upper (l : list File) (f : File) :
  f ∈ l → build_number f ≤ max_build l.
Proof.
  destruct l as [|g l]; [by intros ?%elem_of_nil|].
  unfold max_build. rewrite fmap_cons.
  destruct (fold_left_max_spec (build_number <$> l) (build_number g))
    as (Hge & Hall & _).
  intros [->|Hf]%elem_of_cons; [done|].
  rewrite Forall_forall in Hall. apply Hall, list_elem_of_fmap. eauto.
Qed.

Lemma max_build_attained (l : list File) :
  l ≠ [] → ∃ f, f ∈ l ∧ build_number f = max_build l.
Proof.
  destruct l as [|g l]; [done|]. intros _.
  unfold max_build. rewrite fmap_cons.
  destruct (fold_left_max_spec (build_number <$> l) (build_number g))
    as (_ & _ & [Heq|Hin]).
  - exists g. split; [by left | done].
  - apply list_elem_of_fmap in Hin as (f & Hf & Hfl).
    exists f. split; [by right | done].
Qed.

(** [max_build] is 0 on no files; on files it is the build number of one of
    them, and no build number of them is above it. *)
Theorem max_build_spec (l : list File) :
  (l = [] → max_build l = 0)
  ∧ (∀ f, f ∈ l → build_number f ≤ max_build l)
  ∧ (l ≠ [] → ∃ f, f ∈ l ∧ build_number f = max_build l).
Proof.
  split; [by intros ->|]. split.
  - apply max_build_upper.
  - apply max_build_attained.
Qed.

(** ** Version strings *)

Lemma string_forall_app (p : ascii → bool) (a b : string) :
  string_forall p (a +:+ b) = string_forall p a && string_forall p b.
Proof.
  induction a as [|c a IH]; [done|].
  change (String c a +:+ b) with (String c (a +:+ b)). simpl.
  by rewrite IH, andb_assoc.
Qed.

(** What follows a development version does not matter: a string that
    begins with a development version is a development version. *)
Theorem is_dev_version_extend (v rest : string) :
  is_dev_version v = true → is_dev_version (v +:+ rest) = true.
Proof.
  unfold is_dev_version. rewrite !ReFacts.match_at_start_spec.
  intros (p & q & -> & Hp). exists p, (q +:+ rest).
  by rewrite ReFacts.app_assoc.
Qed.

(** A string of digits and dots is a release version, whatever its number
    of components. *)
Theorem digits_and_dots_release (v : string) :
  string_forall digit_or_dot v = true → is_dev_version v = false.
Proof.
  intros Hv. destruct (is_dev_version v) eqn:Hdev; [|done]. exfalso.
  unfold is_dev_version in Hdev.
  apply ReFacts.match_at_start_spec in Hdev as (p & q & -> & Hp).
  apply dev_version_re_shape in Hp
    as (major & minor & patch & dot & tag & n & -> & _ & _ & _ & _ & Htag & _).
  repeat (rewrite string_forall_app in Hv;
          apply andb_true_iff in Hv as [? Hv] || idtac).
  repeat match goal with
         | H : string_forall _ (_ +:+ _) = true |- _ =>
             rewrite string_forall_app in H;
             apply andb_true_iff in H as [? ?]
         end.
  destruct Htag as [-> | ->]; discriminate.
Qed.

(** ** The sort is stable *)

Lemma key_lt_irrefl (k : Z * string) : key_lt k k = false.
Proof.
  destruct (key_lt k k) eqn:Hk; [|done]. by rewrite (key_lt_asym k k Hk) in Hk.
Qed.

Lemma insert_by_key_stable (k : Z * string) x l :
  filter (λ y, y.1 = k) (insert_by_key x l) = filter (λ y, y.1 = k) (x :: l).
Proof.
  induction l as [|y l IH]; [done|]. simpl.
  destruct (key_lt y.1 x.1) eqn:Hlt; [|done].
  rewrite (filter_cons _ y), IH, !filter_cons.
  destruct (decide (x.1 = k)) as [Hx|Hx], (decide (y.1 = k)) as [Hy|Hy];
    try done.
  rewrite Hx, Hy, key_lt_irrefl in Hlt. done.
Qed.

Lemma sort_decorated_stable (k : Z * string) l :
  filter (λ y, y.1 = k) (sort_decorated l) = filter (λ y, y.1 = k) l.
Proof.
  induction l as [|x l IH]; [done|]. simpl.
  by rewrite insert_by_key_stable, !filter_cons, IH.
Qed.

Lemma filter_has_key_decorated (p : Z) (t : string)
    (d : list ((Z * string) * File)) :
  Forall (λ kf, sort_key kf.2 = Ok kf.1) d
  → filter (has_key p t) (snd <$> d) = snd <$> filter (λ y, y.1 = (p, t)) d.
Proof.
  induction 1 as [|[k f] d Hk _ IH]; [done|].
  rewrite fmap_cons, !filter_cons, IH. simpl in *.
  unfold sort_key in Hk.
  destruct (cleanup_priority f) as [q|] eqn:Hq; [|done]. injection Hk as <-.
  destruct (decide (has_key p t f)) as [[Hp Ht]|Hno].
  - rewrite decide_True; [done|]. rewrite Hq in Hp. congruence.
  - rewrite decide_False; [done|]. intros [= <- <-]. by apply Hno.
Qed.

(** [list.sort] keeps the files of one key in the order they had: among
    files of the same priority and upload time the registry's order
    decides. *)
Theorem sort_files_stable (l queue : list File) (p : Z) (t : string) :
  sort_files l = Ok queue
  → filter (has_key p t) queue = filter (has_key p t) l.
Proof.
  intros Hsort. unfold sort_files in Hsort.
  destruct (decorate l) as [d|e] eqn:Hd; [|done]. injection Hsort as <-.
  destruct (decorate_ok l) as (d' & Hd' & Hsnd & Hkeys).
  { destruct (sort_files_spec l (snd <$> sort_decorated d)) as (Hp & _ & Hq).
    - unfold sort_files. by rewrite Hd.
    - by rewrite <- Hp. }
  rewrite Hd in Hd'. injection Hd' as <-.
  rewrite <- Hsnd.
  rewrite !filter_has_key_decorated; [|done|by rewrite sort_decorated_perm].
  by rewrite sort_decorated_stable.
Qed.

(** ** What the classifier keeps *)

Lemma classify_lookup (versions : list string) (files : list File) (i : nat)
    (f : File) :
  files !! i = Some f
  → classify versions files !! i
    = Some (if decide (file_version f ∈ versions)
            then set_cleanup_priority (assigned_priority versions files f) f
            else f).
Proof. destruct (classify_upto versions files) as [_ H]. apply H. Qed.

Lemma classify_elem (versions : list string) (files : list File) (g : File) :
  g ∈ classify versions files
  → ∃ f, f ∈ files
      ∧ g = if decide (file_version f ∈ versions)
            then set_cleanup_priority (assigned_priority versions files f) f
            else f.
Proof.
  intros (i & Hi)%list_elem_of_lookup.
  destruct (classify_upto versions files) as [Hlen _].
  destruct (files !! i) as [f|] eqn:Hf.
  - rewrite (classify_lookup _ _ _ _ Hf) in Hi. injection Hi as <-.
    exists f. split; [|done]. apply list_elem_of_lookup. eauto.
  - apply lookup_lt_Some in Hi. apply lookup_ge_None in Hf. lia.
Qed.

Lemma classify_elem_of (versions : list string) (files : list File)
    (f : File) :
  f ∈ files
  → (if decide (file_version f ∈ versions)
     then set_cleanup_priority (assigned_priority versions files f) f
     else f) ∈ classify versions files.
Proof.
  intros (i & Hi)%list_elem_of_lookup. apply list_elem_of_lookup.
  exists i. by apply classify_lookup.
Qed.

Lemma classify_erase (versions : list string) (files : list File) :
  erase_priority <$> classify versions files = erase_priority <$> files.
Proof.
  apply list_eq. intros i. rewrite !list_lookup_fmap.
  destruct (classify_upto versions files) as [Hlen _].
  destruct (files !! i) as [f|] eqn:Hf.
  - rewrite (classify_lookup _ _ _ _ Hf). simpl. by case_decide.
  - apply lookup_ge_None in Hf. rewrite <- Hlen in Hf.
    apply lookup_ge_None in Hf. by rewrite Hf.
Qed.

Lemma classify_field {A} (field : File → A) (versions : list string)
    (files : list File) :
  (∀ f, field (erase_priority f) = field f)
  → field <$> classify versions files = field <$> files.
Proof.
  intros Hfield.
  rewrite <- (list_fmap_ext (field ∘ erase_priority) field
                            (classify versions files))
    by (intros ? ? ?; apply Hfield).
  rewrite <- (list_fmap_ext (field ∘ erase_priority) field files)
    by (intros ? ? ?; apply Hfield).
  by rewrite !list_fmap_compose, classify_erase.
Qed.

(** The classifier writes the priority and nothing else: it keeps the number
    and the order of the files, and their versions, build numbers, sizes,
    upload times, labels and names. *)
Theorem classify_only_priority (versions : list string) (files : list File) :
  erase_priority <$> classify versions files = erase_priority <$> files
  ∧ length (classify versions files) = length files
  ∧ build_number <$> classify versions files = build_number <$> files
  ∧ file_full_name <$> classify versions files = file_full_name <$> files.
Proof.
  split; [apply classify_erase|]. split.
  - by destruct (classify_upto versions files).
  - split; by apply classify_field.
Qed.

Lemma assigned_priority_group (versions : list string) (files : list File)
    (f g : File) :
  group_of f = group_of g
  → assigned_priority versions files f = assigned_priority versions files g.
Proof.
  unfold group_of. intros [= Hv Hb].
  unfold assigned_priority, priority_of. by rewrite Hv, Hb.
Qed.

(** The files of one version and one build number leave the classifier with
    the same priority. *)
Lemma classify_same_group (versions : list string) (files : list File)
    (f g : File) :
  f ∈ classify versions files → g ∈ classify versions files
  → file_version f ∈ versions
  → group_of f = group_of g
  → cleanup_priority f = cleanup_priority g.
Proof.
  intros (f0 & _ & ->)%classify_elem (g0 & _ & ->)%classify_elem Hv Hgroup.
  assert (Hf0 : file_version f0 ∈ versions) by (by case_decide).
  rewrite decide_True in Hgroup |- * by done.
  assert (Hsame : file_version g0 = file_version f0).
  { case_decide; by injection Hgroup. }
  rewrite decide_True in Hgroup |- * by (by rewrite Hsame).
  simpl. f_equal. by apply assigned_priority_group.
Qed.

(** The artifacts of one build share their priority: two classified files
    of the same version and build number, the version being listed, have
    the same priority. *)
Theorem same_build_same_priority (versions : list string)
    (files : list File) (f g : File) :
  f ∈ classify versions files
  → g ∈ classify versions files
  → file_version f ∈ versions
  → file_version f = file_version g
  → build_number f = build_number g
  → cleanup_priority f = cleanup_priority g.
Proof.
  intros Hf Hg Hv Hsame Hbuild.
  apply (classify_same_group versions files); [done..|].
  unfold group_of. by rewrite Hsame, Hbuild.
Qed.

(** Every listed version that has a file has a file of priority 2 or 4, a
    file of its highest build number. *)
Lemma classify_top_build (versions : list string) (files : list File)
    (f : File) :
  f ∈ files
  → file_version f ∈ versions
  → ∃ g, g ∈ classify versions files
      ∧ file_version g = file_version f
      ∧ build_number g = max_build (files_of_version (file_version f) files)
      ∧ (cleanup_priority g = Some 2 ∨ cleanup_priority g = Some 4).
Proof.
  intros Hf Hv.
  destruct (max_build_attained (files_of_version (file_version f) files))
    as (g & Hg & Hmax).
  { intros Hnil. assert (Hin : f ∈ files_of_version (file_version f) files)
      by (by apply list_elem_of_filter).
    rewrite Hnil in Hin. by apply elem_of_nil in Hin. }
  apply list_elem_of_filter in Hg as [Hgv Hg].
  pose proof (classify_elem_of versions files g Hg) as Hin.
  rewrite decide_True in Hin by (by rewrite Hgv).
  eexists. split; [exact Hin|]. simpl.
  split; [done|]. split; [done|].
  rewrite assigned_priority_table. unfold table_priority.
  rewrite Hgv.
  rewrite (bool_decide_eq_true_2
             (build_number g
              = max_build (files_of_version (file_version f) files)))
    by done.
  destruct (is_dev_version (file_version f)), (bool_decide _); simpl; auto.
Qed.

(** ** What a run keeps and what it ends on *)

Lemma fold_left_add (l : list Z) (a : Z) :
  fold_left Z.add l a = a + fold_left Z.add l 0.
Proof.
  revert a. induction l as [|x l IH]; intros a; simpl; [lia|].
  rewrite (IH (a + x)), (IH (0 + x)). lia.
Qed.

Lemma total_size_of_cons (f : File) (l : list File) :
  total_size_of (f :: l) = file_size f + total_size_of l.
Proof. unfold total_size_of. rewrite fmap_cons. simpl. apply fold_left_add. Qed.

Lemma total_size_of_app (a b : list File) :
  total_size_of (a ++ b) = total_size_of a + total_size_of b.
Proof.
  induction a as [|f a IH]; [done|].
  rewrite <- app_comm_cons, !total_size_of_cons, IH. lia.
Qed.

Lemma total_size_of_perm (a b : list File) :
  a ≡ₚ b → total_size_of a = total_size_of b.
Proof.
  induction 1 as [|f a b _ IH|f g a|a b c _ IH1 _ IH2]; [done|..].
  - by rewrite !total_size_of_cons, IH.
  - rewrite !total_size_of_cons. lia.
  - congruence.
Qed.

Lemma total_size_of_classify (versions : list string) (l : list File) :
  total_size_of (classify versions l) = total_size_of l.
Proof. unfold total_size_of. by rewrite (classify_field file_size). Qed.

Lemma removed_names_app (a b : list event) :
  removed_names (a ++ b) = removed_names a ++ removed_names b.
Proof. apply omap_app. Qed.

Lemma accepted_snoc (answers : nat → bool) (n : nat) (l : list File)
    (f : File) :
  accepted answers n (l ++ [f])
  = accepted answers n l ++ if answers (n + length l)%nat then [f] else [].
Proof.
  revert n. induction l as [|g l IH]; intros n; simpl.
  - by rewrite Nat.add_0_r.
  - rewrite IH. replace (S n + length l)%nat with (n + S (length l))%nat by lia.
    by destruct (answers n).
Qed.

Lemma accepted_sublist (answers : nat → bool) (n : nat) (l : list File) :
  accepted answers n l ⊆ l.
Proof.
  revert n. induction l as [|g l IH]; intros n; simpl; [done|].
  destruct (answers n); intros f Hf.
  - apply elem_of_cons in Hf as [->|Hf]; [by left|]. right. by apply (IH (S n)).
  - right. by apply (IH (S n)).
Qed.

Section Run.

Variables (cfg : Config) (answers : nat → bool).
Variables (queue : list File) (total : Z).

(** The files taken and the files left make up the queue, and the two sums
    of the loop are the sizes of the files taken. *)
Lemma reaches_accounting (s : State) :
  reaches cfg answers (initial_state queue total) s
  → evicted s ++ files s = queue
    ∧ total_size s = total - total_size_of (evicted s)
    ∧ cleanup_size s = total_size_of (evicted s).
Proof.
  remember (initial_state queue total) as s0 eqn:Hs0.
  induction 1 as [|s1 s2 s3 _ IH Hbody].
  { subst. simpl. unfold total_size_of. simpl. split; [done|]. lia. }
  destruct (IH Hs0) as (Hq & Ht & Hc).
  apply loop_body_continue in Hbody
    as (f & nc & Hf & _ & _ & Ht' & Hc' & _ & _ & _ & _ & He).
  rewrite He, Ht', Hc', total_size_of_app, total_size_of_cons, <- app_assoc.
  rewrite Hf in Hq. unfold total_size_of at 2 4. simpl.
  split; [done|]. lia.
Qed.

(** The questions asked and the calls of [remove_dist], by the mode of the
    run. *)
Lemma reaches_removals (s : State) :
  reaches cfg answers (initial_state queue total) s
  → asked s = (if dry_run cfg || force cfg then 0 else length (evicted s))%nat
    ∧ removed_names (trace s)
      = file_full_name <$>
          (if dry_run cfg then []
           else if force cfg then evicted s
           else accepted answers 0 (evicted s)).
Proof.
  remember (initial_state queue total) as s0 eqn:Hs0.
  induction 1 as [|s1 s2 s3 _ IH Hbody].
  { subst. simpl. by destruct (dry_run cfg), (force cfg). }
  destruct (IH Hs0) as [Ha Hr].
  apply loop_body_continue in Hbody
    as (f & nc & _ & _ & _ & _ & _ & _ & _ & Ht & Ha' & He).
  rewrite Ht, Ha', He, removed_names_app, Hr, accepted_snoc, length_app.
  unfold removal. simpl. clear Ht Ha' He Hr.
  destruct (dry_run cfg), (force cfg); simpl in *.
  - split; [done|]. by destruct (verbose cfg).
  - split; [done|]. by destruct (verbose cfg).
  - split; [done|]. rewrite fmap_app, removed_names_app. simpl.
    by destruct (verbose cfg).
  - rewrite Ha. split; [lia|]. rewrite fmap_app.
    destruct (answers (length (evicted s2))); simpl;
      by rewrite ?app_nil_r.
Qed.

(** The state a run ends in: the loop was at the top of a pass with the
    queue empty, or with a front file that needs no cleaning and is of
    another pair than the file taken last. *)
Lemma run_final (s' : State) :
  eviction_loop cfg answers (initial_state queue total) = Done s'
  → ∃ sl, reaches cfg answers (initial_state queue total) sl
      ∧ files s' = files sl ∧ evicted s' = evicted sl
      ∧ trace s' = trace sl ∧ asked s' = asked sl
      ∧ total_size s' = total_size sl ∧ cleanup_size s' = cleanup_size sl
      ∧ (files sl = []
         ∨ ∃ f, head (files sl) = Some f
             ∧ need_clean cfg (total_size sl) (files sl) f = Ok false
             ∧ other_group sl (file_version f) (build_number f) = true).
Proof.
  intros (sl & Hreach & Hend)%eviction_loop_done. exists sl.
  split; [done|]. destruct Hend as [[Hnil ->]|Hbreak].
  - repeat split; try done. by left.
  - apply loop_body_break in Hbreak
      as (f & Hf & Hnc & Hother & -> & -> & -> & -> & -> & -> & _).
    repeat split; try done. right. eauto.
Qed.

End Run.

Lemma cleanup_packages_done (package : Package) (label : option string)
    (cfg : Config) (answers : nat → bool) (s : State) :
  cleanup_packages package label cfg answers = Done s
  → ∃ queue s0,
      sort_files (classify (pkg_versions package)
                           (filter_label label (pkg_files package)))
      = Ok queue
      ∧ eviction_loop cfg answers
          (initial_state queue
             (total_size_of (filter_label label (pkg_files package))))
        = Done s0
      ∧ s = print_cleaned_size cfg s0.
Proof.
  unfold cleanup_packages. destruct (sort_files _) as [queue|e]; [|done].
  destruct (eviction_loop _ _ _) as [s0| |] eqn:Hloop; try done.
  intros [= <-]. eauto.
Qed.

Lemma need_clean_false (cfg : Config) (total : Z) (q : list File)
    (f : File) :
  need_clean cfg total q f = Ok false
  → over_size cfg total = false
    ∧ over_count cfg q = false
    ∧ ∀ mp, max_priority cfg = Some mp → at_most mp f = false.
Proof.
  unfold need_clean, at_most. destruct (over_size cfg total); [done|].
  destruct (max_priority cfg) as [mp|].
  - destruct (cleanup_priority f) as [p|]; [|done].
    destruct (p <=? mp) eqn:Hp; [done|]. intros [= ->].
    split; [done|]. split; [done|]. by intros ? [= <-].
  - intros [= ->]. done.
Qed.

(** The files taken and the files left are the queue, in its order; the
    cleaned size is the size of the files taken, the running total the size
    of the files left, and the two make up the size of the files the run
    began with. *)
Theorem cleanup_accounting (package : Package) (label : option string)
    (cfg : Config) (answers : nat → bool) (s : State) :
  cleanup_packages package label cfg answers = Done s
  → ∃ queue,
      sort_files (classify (pkg_versions package)
                           (filter_label label (pkg_files package)))
      = Ok queue
      ∧ evicted s ++ files s = queue
      ∧ cleanup_size s = total_size_of (evicted s)
      ∧ total_size s = total_size_of (files s)
      ∧ cleanup_size s + total_size s
        = total_size_of (filter_label label (pkg_files package)).
Proof.
  intros (queue & s0 & Hsort & Hloop & ->)%cleanup_packages_done.
  exists queue. split; [done|]. simpl.
  apply run_final in Hloop
    as (sl & Hreach & -> & -> & _ & _ & -> & -> & _).
  apply reaches_accounting in Hreach as (Hq & Ht & Hc).
  destruct (sort_files_spec _ _ Hsort) as (Hperm & _).
  assert (Htotal : total_size_of (filter_label label (pkg_files package))
                   = total_size_of (evicted sl) + total_size_of (files sl)).
  { rewrite <- total_size_of_app, Hq, (total_size_of_perm _ _ Hperm).
    by rewrite total_size_of_classify. }
  repeat split; [done|done|lia|lia].
Qed.

(** A run that ends has met every limit that is set, unless it took every
    file: the files left fit under the size cap, they are no more than the
    keep count, and each of them has a priority above the priority cap. *)
Theorem limits_met (package : Package) (label : option string)
    (cfg : Config) (answers : nat → bool) (s : State) :
  cleanup_packages package label cfg answers = Done s
  → files s = []
    ∨ ((∀ m, max_size cfg = Some m → total_size_of (files s) ≤ m)
       ∧ (∀ N, keep_count cfg = Some N → Z.of_nat (length (files s)) ≤ N)
       ∧ (∀ mp f, max_priority cfg = Some mp → f ∈ files s
                  → at_most mp f = false)).
Proof.
  intros (queue & s0 & Hsort & Hloop & ->)%cleanup_packages_done. simpl.
  apply run_final in Hloop
    as (sl & Hreach & -> & _ & _ & _ & _ & _ & Hend).
  destruct Hend as [Hnil|(f & Hf & Hnc & _)]; [by left | right].
  apply reaches_accounting in Hreach as (Hq & Ht & _).
  destruct (sort_files_spec _ _ Hsort) as (Hperm & Hsorted & _).
  apply need_clean_false in Hnc as (Hsize & Hcount & Hprio).
  split; [|split].
  - intros m Hm. unfold over_size in Hsize. rewrite Hm in Hsize.
    assert (Htotal : total_size_of (filter_label label (pkg_files package))
                     = total_size_of (evicted sl) + total_size_of (files sl)).
    { rewrite <- total_size_of_app, Hq, (total_size_of_perm _ _ Hperm).
      by rewrite total_size_of_classify. }
    destruct (Z.gtb_spec (total_size sl) m); [done|]. lia.
  - intros N HN. unfold over_count in Hcount. rewrite HN in Hcount.
    destruct (Z.gtb_spec (Z.of_nat (length (files sl))) N); [done|]. lia.
  - intros mp g Hmp Hg. specialize (Hprio mp Hmp).
    apply sorted_by_priority in Hsorted. rewrite <- Hq in Hsorted.
    apply StronglySorted_app_1_r in Hsorted.
    destruct (files sl) as [|f' rest]; [done|]. injection Hf as ->.
    apply StronglySorted_inv in Hsorted as [_ Hle].
    apply elem_of_cons in Hg as [->|Hg]; [done|].
    rewrite Forall_forall in Hle.
    by apply (priority_le_at_most mp f g); [apply Hle|].
Qed.

(** A run does not end between two files of one pair that stand next to
    each other in the queue: the file at the front of what is left is of
    another version or build number than the file taken last. *)
Theorem no_stop_inside_adjacent_group (package : Package)
    (label : option string) (cfg : Config) (answers : nat → bool)
    (s : State) (f g : File) :
  cleanup_packages package label cfg answers = Done s
  → last (evicted s) = Some f
  → head (files s) = Some g
  → group_of f ≠ group_of g.
Proof.
  intros (queue & s0 & Hsort & Hloop & ->)%cleanup_packages_done. simpl.
  apply run_final in Hloop
    as (sl & Hreach & -> & -> & _ & _ & _ & _ & Hend).
  intros Hlast Hhead.
  destruct Hend as [Hnil|(g' & Hg' & _ & Hother)];
    [by rewrite Hnil in Hhead|].
  rewrite Hhead in Hg'. injection Hg' as <-.
  assert (Hok : markers_ok sl).
  { eapply reaches_markers_ok; [|exact Hreach]. done. }
  apply (other_group_iff_differs sl g Hok) in Hother.
  unfold differs_from_last_deleted in Hother. by rewrite Hlast in Hother.
Qed.

(** Outside a dry run, the calls of [remove_dist] are, in the order of the
    queue: with [force] the files taken, one call each; without it the files
    taken that the operator accepted, and the operator was asked once for
    each file taken. *)
Theorem removals_by_mode (package : Package) (label : option string)
    (cfg : Config) (answers : nat → bool) (s : State) :
  cleanup_packages package label cfg answers = Done s
  → dry_run cfg = false
  → removed_names (trace s)
    = file_full_name <$>
        (if force cfg then evicted s else accepted answers 0 (evicted s))
    ∧ asked s = (if force cfg then 0 else length (evicted s))%nat.
Proof.
  intros (queue & s0 & Hsort & Hloop & ->)%cleanup_packages_done Hdry.
  simpl. apply run_final in Hloop
    as (sl & Hreach & _ & -> & -> & -> & _).
  apply reaches_removals in Hreach as [Ha Hr]. rewrite Hdry in Ha, Hr.
  simpl in Ha. rewrite removed_names_app, Hr, Ha. split; [|done].
  destruct (verbose cfg); simpl; by rewrite app_nil_r.
Qed.

(** Whatever the mode, a name handed to [remove_dist] is the name of a file
    of the snapshot, and of one that carries the label when a label is
    asked for. *)
Theorem removed_files_of_package (package : Package) (label : option string)
    (cfg : Config) (answers : nat → bool) (s : State) (n : string) :
  cleanup_packages package label cfg answers = Done s
  → n ∈ removed_names (trace s)
  → ∃ f, f ∈ pkg_files package
      ∧ file_full_name f = n
      ∧ ∀ l, label = Some l → l ∈ file_labels f.
Proof.
  intros (queue & s0 & Hsort & Hloop & ->)%cleanup_packages_done. simpl.
  apply run_final in Hloop
    as (sl & Hreach & _ & _ & -> & _).
  pose proof (reaches_removals _ _ _ _ _ Hreach) as [_ Hr].
  apply reaches_accounting in Hreach as (Hq & _).
  destruct (sort_files_spec _ _ Hsort) as (Hperm & _).
  rewrite removed_names_app, Hr. intros Hn.
  assert (Hev : n ∈ file_full_name <$> evicted sl).
  { apply elem_of_app in Hn as [Hn|Hn].
    - apply list_elem_of_fmap in Hn as (g & -> & Hg).
      apply list_elem_of_fmap. exists g. split; [done|].
      destruct (dry_run cfg); [by apply elem_of_nil in Hg|].
      destruct (force cfg); [done|]. by eapply accepted_sublist.
    - destruct (verbose cfg); simpl in Hn; by apply elem_of_nil in Hn. }
  apply list_elem_of_fmap in Hev as (g & -> & Hg).
  assert (Hgq : g ∈ classify (pkg_versions package)
                             (filter_label label (pkg_files package))).
  { rewrite <- Hperm, <- Hq. apply elem_of_app. by left. }
  apply classify_elem in Hgq as (f & Hf & ->).
  exists f. split; [|split].
  - destruct label as [l|]; [|done].
    by apply list_elem_of_filter in Hf as [_ Hf].
  - by case_decide.
  - intros l ->. by apply list_elem_of_filter in Hf as [Hl _].
Qed.

(** ** The mode of a run does not change what it takes *)

Section Modes.

Variables (cfg1 cfg2 : Config) (answers1 answers2 : nat → bool).
Hypothesis Hlimits : same_limits cfg1 cfg2.

Lemma need_clean_same_limits (total : Z) (q : list File) (f : File) :
  need_clean cfg1 total q f = need_clean cfg2 total q f.
Proof.
  destruct Hlimits as (Hk & Hs & Hp).
  unfold need_clean, over_size, over_count. by rewrite Hk, Hs, Hp.
Qed.

Lemma loop_body_same_variables (s1 s2 : State) :
  same_variables s1 s2
  → same_step (loop_body cfg1 answers1 s1) (loop_body cfg2 answers2 s2).
Proof.
  intros Hsame. pose proof Hsame as (Hf & Ht & Hv & Hb & Hc & He).
  unfold loop_body. rewrite Hf, Ht.
  destruct (files s2) as [|f rest] eqn:Hq; [exact Hsame|].
  rewrite need_clean_same_limits.
  destruct (need_clean cfg2 (total_size s2) (f :: rest) f) as [nc|e];
    [|done].
  unfold other_group. rewrite Hv, Hb.
  destruct (negb nc && _); simpl.
  - unfold same_variables. simpl. by rewrite Hc, He.
  - destruct (removal cfg1 answers1 (asked s1) f nc),
      (removal cfg2 answers2 (asked s2) f nc).
    simpl. unfold same_variables. simpl. by rewrite Hc, He.
Qed.

Lemma while_loop_same_variables (fuel : nat) (s1 s2 : State) :
  same_variables s1 s2
  → same_outcome (while_loop fuel cfg1 answers1 s1)
                 (while_loop fuel cfg2 answers2 s2).
Proof.
  revert s1 s2. induction fuel as [|fuel IH]; intros s1 s2 Hsame; [done|].
  simpl. pose proof (loop_body_same_variables s1 s2 Hsame) as Hstep.
  destruct (loop_body cfg1 answers1 s1), (loop_body cfg2 answers2 s2);
    try done.
  by apply IH.
Qed.

Lemma cleanup_packages_same_limits (package : Package)
    (label : option string) :
  same_outcome (cleanup_packages package label cfg1 answers1)
               (cleanup_packages package label cfg2 answers2).
Proof.
  unfold cleanup_packages. destruct (sort_files _) as [queue|e]; [|done].
  set (s0 := initial_state queue
               (total_size_of (filter_label label (pkg_files package)))).
  assert (H : same_outcome (eviction_loop cfg1 answers1 s0)
                           (eviction_loop cfg2 answers2 s0))
    by (by apply while_loop_same_variables).
  destruct (eviction_loop cfg1 answers1 s0),
    (eviction_loop cfg2 answers2 s0); try done.
Qed.

End Modes.

(** A dry run shows what a forced run does: under the same limits the two
    end the same way, take the same files in the same order and report the
    same cleaned size, and the names the forced run hands to [remove_dist]
    are the names of the files the dry run took. *)
Theorem dry_run_shows_forced_run (package : Package) (label : option string)
    (dry forced : Config) (answers1 answers2 : nat → bool) :
  same_limits dry forced
  → dry_run dry = true
  → dry_run forced = false
  → force forced = true
  → same_outcome (cleanup_packages package label dry answers1)
                 (cleanup_packages package label forced answers2)
    ∧ ∀ s1 s2,
        cleanup_packages package label dry answers1 = Done s1
        → cleanup_packages package label forced answers2 = Done s2
        → removed_names (trace s1) = []
          ∧ removed_names (trace s2) = file_full_name <$> evicted s1.
Proof.
  intros Hlimits Hdry Hnot Hforce.
  pose proof (cleanup_packages_same_limits dry forced answers1 answers2
                Hlimits package label) as Hsame.
  split; [done|]. intros s1 s2 H1 H2. rewrite H1, H2 in Hsame.
  destruct Hsame as (_ & _ & _ & _ & _ & Hev). rewrite Hev.
  apply cleanup_packages_done in H1 as (q1 & t1 & _ & Hloop1 & ->).
  apply cleanup_packages_done in H2 as (q2 & t2 & _ & Hloop2 & ->).
  simpl. rewrite !removed_names_app.
  apply run_final in Hloop1 as (l1 & Hreach1 & _ & _ & -> & _).
  apply run_final in Hloop2 as (l2 & Hreach2 & _ & -> & -> & _).
  apply reaches_removals in Hreach1 as [_ Hr1].
  apply reaches_removals in Hreach2 as [_ Hr2].
  rewrite Hr1, Hr2, Hdry, Hnot, Hforce.
  split; [by destruct (verbose dry) | by destruct (verbose forced);
                                        rewrite app_nil_r].
Qed.

(** ** A priority cap alone *)

Lemma classify_groups_apart (versions : list string) (l : list File)
    (mp : Z) :
  (∀ f, f ∈ l → file_version f ∈ versions)
  → groups_apart mp (classify versions l) = true.
Proof.
  intros Hall. unfold groups_apart.
  apply forallb_forall. intros f Hf%list_elem_of_In.
  apply forallb_forall. intros g Hg%list_elem_of_In.
  destruct (at_most mp f) eqn:Hlow; [|done].
  destruct (at_most mp g) eqn:Hhigh; [done|]. simpl.
  apply negb_true_iff, bool_decide_eq_false. intros Hgroup.
  assert (Hv : file_version f ∈ versions).
  { apply classify_elem in Hf as (f0 & Hf0 & ->).
    specialize (Hall f0 Hf0). by rewrite decide_True. }
  pose proof (classify_same_group versions l f g Hf Hg Hv Hgroup) as Hsame.
  unfold at_most in Hlow, Hhigh. rewrite Hsame in Hlow. congruence.
Qed.

(** With a priority cap and no other limit, on a package whose files are
    all of listed versions, a run takes exactly the files with a priority at
    or below the cap and leaves the others: group continuation adds
    nothing, since the files of one pair share their priority. *)
Theorem max_priority_alone (package : Package) (label : option string)
    (cfg : Config) (answers : nat → bool) (mp : Z) :
  max_priority cfg = Some mp
  → max_size cfg = None
  → keep_count cfg = None
  → (∀ f, f ∈ filter_label label (pkg_files package)
          → file_version f ∈ pkg_versions package)
  → ∃ s, cleanup_packages package label cfg answers = Done s
      ∧ (∀ f, f ∈ evicted s
              ↔ f ∈ classify (pkg_versions package)
                             (filter_label label (pkg_files package))
                ∧ at_most mp f = true)
      ∧ (∀ f, f ∈ files s
              ↔ f ∈ classify (pkg_versions package)
                             (filter_label label (pkg_files package))
                ∧ at_most mp f = false).
Proof.
  intros Hprio Hsize Hkeep Hall.
  apply (max_priority_only cfg answers mp Hprio Hsize Hkeep package label);
    [done|].
  by apply classify_groups_apart.
Qed.

(** A priority cap below 2, alone, empties no version: after the run every
    version that had a file still has a file of its highest build number. *)
Theorem low_cap_keeps_top_builds (package : Package) (label : option string)
    (cfg : Config) (answers : nat → bool) (mp : Z) (f : File) :
  max_priority cfg = Some mp
  → max_size cfg = None
  → keep_count cfg = None
  → mp < 2
  → (∀ g, g ∈ filter_label label (pkg_files package)
          → file_version g ∈ pkg_versions package)
  → f ∈ filter_label label (pkg_files package)
  → ∃ s g, cleanup_packages package label cfg answers = Done s
      ∧ g ∈ files s
      ∧ file_version g = file_version f
      ∧ build_number g
        = max_build (files_of_version (file_version f)
                       (filter_label label (pkg_files package))).
Proof.
  intros Hprio Hsize Hkeep Hmp Hall Hf.
  destruct (max_priority_only cfg answers mp Hprio Hsize Hkeep package label)
    as (s & Hdone & _ & Hleft); [done|by apply classify_groups_apart|].
  destruct (classify_top_build (pkg_versions package)
              (filter_label label (pkg_files package)) f Hf (Hall f Hf))
    as (g & Hg & Hv & Hb & Hp).
  exists s, g. split; [done|]. split; [|done].
  apply Hleft. split; [done|]. unfold at_most.
  destruct Hp as [-> | ->]; apply Z.leb_gt; lia.
Qed.

(** ** The last development version *)

(** [last_dev] is the development version that stands last in the sequence
    of the registry, whatever the numbers in it; it is [None] exactly when
    no version of the sequence is a development version. *)
Theorem last_dev_of_spec (versions : list string) :
  (last_dev_of versions = None
   ↔ ∀ v, v ∈ versions → is_dev_version v = false)
  ∧ (∀ v, last_dev_of versions = Some v
          → ∃ before after,
              versions = before ++ v :: after
              ∧ is_dev_version v = true
              ∧ ∀ w, w ∈ after → is_dev_version w = false).
Proof.
  induction versions as [|x versions [IHn IHs]] using rev_ind.
  - split; [|done]. split; [|done]. by intros _ v ?%elem_of_nil.
  - rewrite last_dev_of_snoc. destruct (is_dev_version x) eqn:Hx; split.
    + split; [done|]. intros H. rewrite (H x) in Hx; [done|].
      apply elem_of_app. right. by left.
    + intros v [= <-]. exists versions, []. split; [done|].
      split; [done|]. by intros w ?%elem_of_nil.
    + rewrite IHn. split.
      * intros H v [Hv|Hv%list_elem_of_singleton]%elem_of_app;
          [by apply H | by subst].
      * intros H v Hv. apply H, elem_of_app. by left.
    + intros v Hv. destruct (IHs v Hv) as (before & after & -> & Hd & Hafter).
      exists before, (after ++ [x]).
      split; [by rewrite <- app_assoc|]. split; [done|].
      intros w [Hw|Hw%list_elem_of_singleton]%elem_of_app;
        [by apply Hafter | by subst].
Qed.

(** ** The main block *)

Lemma main_ran (registry : string → Package) (args : Args)
    (answers : nat → bool) (o : outcome) :
  main registry args answers = MainRan o
  → o = cleanup_packages (registry (args_package_path args))
                         (args_label args) (config_of args) answers.
Proof.
  unfold main.
  destruct (quota_max_size args), (args_max_priority args),
    (args_keep_count args); by intros [= <-].
Qed.

(** The main block raises its exception exactly when no limit is given and
    the package has no quota in the table; otherwise it runs
    [cleanup_packages], with the size cap that was given or else the quota
    of the package. *)
Theorem main_exception_iff (registry : string → Package) (args : Args)
    (answers : nat → bool) :
  ((∃ msg, main registry args answers = MainException msg)
   ↔ args_max_size args = None ∧ args_max_priority args = None
     ∧ args_keep_count args = None
     ∧ QUOTAS !! args_package_path args = None)
  ∧ (∀ o, main registry args answers = MainRan o
          → o = cleanup_packages (registry (args_package_path args))
                  (args_label args) (config_of args) answers
            ∧ max_size (config_of args)
              = match args_max_size args with
                | Some m => Some m
                | None => QUOTAS !! args_package_path args
                end).
Proof.
  split.
  - unfold main, quota_max_size.
    destruct (args_max_size args), (args_max_priority args),
      (args_keep_count args), (QUOTAS !! args_package_path args);
      split; try (by intros [? [=]]); try (by intros (? & ? & ? & ?)); eauto.
  - intros o Ho. split; [by apply main_ran|done].
Qed.

(** For a package of the table and no size cap on the command line, a run
    that ends leaves files that fit in the quota of the package, unless it
    took them all; a size cap on the command line stands in place of the
    quota. *)
Theorem main_size_cap (registry : string → Package) (args : Args)
    (answers : nat → bool) (s : State) (cap : Z) :
  main registry args answers = MainRan (Done s)
  → match args_max_size args with
    | Some m => m = cap
    | None => QUOTAS !! args_package_path args = Some cap
    end
  → files s = [] ∨ total_size_of (files s) ≤ cap.
Proof.
  intros Hmain Hcap. apply main_ran in Hmain. symmetry in Hmain.
  assert (Hm : max_size (config_of args) = Some cap).
  { simpl. unfold quota_max_size.
    destruct (args_max_size args); [by subst | done]. }
  apply cleanup_packages_done in Hmain as (queue & s0 & Hsort & Hloop & ->).
  simpl. apply run_final in Hloop
    as (sl & Hreach & -> & _ & _ & _ & _ & _ & Hend).
  destruct Hend as [Hnil|(f & Hf & Hnc & _)]; [by left | right].
  apply reaches_accounting in Hreach as (Hq & Ht & _).
  destruct (sort_files_spec _ _ Hsort) as (Hperm & _).
  apply need_clean_false in Hnc as (Hsize & _).
  unfold over_size in Hsize. rewrite Hm in Hsize.
  assert (Htotal : total_size_of
                     (filter_label (args_label args)
                        (pkg_files (registry (args_package_path args))))
                   = total_size_of (evicted sl) + total_size_of (files sl)).
  { rewrite <- total_size_of_app, Hq, (total_size_of_perm _ _ Hperm).
    by rewrite total_size_of_classify. }
  destruct (Z.gtb_spec (total_size sl) cap); [done|]. lia.
Qed.

(** ** The further properties at work *)

Lemma max_build_spec_witness :
  ∃ f, f ∈ pkg_files interleaved
    ∧ build_number f = max_build (pkg_files interleaved).
Proof.
  apply (proj2 (proj2 (max_build_spec (pkg_files interleaved)))).
  discriminate.
Defined.

Lemma is_dev_version_extend_witness :
  is_dev_version ("0.14.0dev1" +:+ "+12.gabcdef") = true.
Proof. apply (is_dev_version_extend "0.14.0dev1" "+12.gabcdef"). reflexivity.
Defined.

Lemma digits_and_dots_release_witness : is_dev_version "1.2.3.4" = false.
Proof. apply (digits_and_dots_release "1.2.3.4"). reflexivity. Defined.

Lemma sort_files_stable_witness :
  ∃ queue,
    sort_files (classify (pkg_versions (help_example_triplet one_kilobyte
                                                             same_hour))
                         (pkg_files (help_example_triplet one_kilobyte
                                                          same_hour)))
    = Ok queue
    ∧ file_full_name <$> filter (has_key 4 "2023-01-01 00:00:00") queue
      = ["pkg_v1.0_bld-1"; "pkg_v2.0_bld-0"; "pkg_v2.1dev2_bld-2"].
Proof.
  eexists. split; [vm_compute; reflexivity|].
  rewrite (sort_files_stable
             (classify (pkg_versions (help_example_triplet one_kilobyte
                                                           same_hour))
                       (pkg_files (help_example_triplet one_kilobyte
                                                        same_hour)))
             _ 4 "2023-01-01 00:00:00");
    vm_compute; reflexivity.
Defined.

Lemma same_build_same_priority_witness :
  cleanup_priority
    (set_cleanup_priority 4
       (conda_file "1.0.0" 0 "u/pkg/1.0.0/linux-64/pkg-1.0.0-0.conda" 100
                   "2023-01-01 10:00:00"))
  = cleanup_priority
      (set_cleanup_priority 4
         (conda_file "1.0.0" 0 "u/pkg/1.0.0/win-64/pkg-1.0.0-0.conda" 100
                     "2023-01-01 11:00:00")).
Proof.
  apply (same_build_same_priority (pkg_versions siblings)
                                  (pkg_files siblings)).
  - apply list_elem_of_lookup. exists 0%nat. reflexivity.
  - apply list_elem_of_lookup. exists 1%nat. reflexivity.
  - vm_compute. repeat constructor.
  - reflexivity.
  - reflexivity.
Defined.

Lemma cleanup_accounting_witness :
  ∃ s, cleanup_packages siblings None cap_150 decline_first = Done s
    ∧ cleanup_size s + total_size s = 200.
Proof.
  eassert (Hdone : cleanup_packages siblings None cap_150 decline_first
                   = Done _) by (vm_compute; reflexivity).
  destruct (cleanup_accounting _ _ _ _ _ Hdone) as (queue & _ & _ & _ & _ & H).
  eexists. split; [exact Hdone|]. exact H.
Defined.

Lemma limits_met_witness :
  ∃ s, cleanup_packages interleaved None cap_250_force never = Done s
    ∧ (files s = []
       ∨ ((∀ m, Some 250 = Some m → total_size_of (files s) ≤ m)
          ∧ (∀ N, @None Z = Some N → Z.of_nat (length (files s)) ≤ N)
          ∧ (∀ mp f, @None Z = Some mp → f ∈ files s
                     → at_most mp f = false))).
Proof.
  eassert (Hdone : cleanup_packages interleaved None cap_250_force never
                   = Done _) by (vm_compute; reflexivity).
  eexists. split; [exact Hdone|].
  exact (limits_met _ _ _ _ _ Hdone).
Defined.

Lemma no_stop_inside_adjacent_group_witness :
  group_of (set_cleanup_priority 4
              (conda_file "1.0.0" 0 "u/pkg/1.0.0/linux-64/pkg-1.0.0-0.conda"
                          100 "2023-01-01 10:00:00"))
  ≠ group_of (set_cleanup_priority 4
                (conda_file "1.1.0" 0
                            "u/pkg/1.1.0/linux-64/pkg-1.1.0-0.conda" 100
                            "2023-02-01 10:00:00")).
Proof.
  eassert (Hdone : cleanup_packages interleaved None cap_250_force never
                   = Done _) by (vm_compute; reflexivity).
  apply (no_stop_inside_adjacent_group _ _ _ _ _ _ _ Hdone); reflexivity.
Defined.

Lemma removals_by_mode_witness :
  ∃ s, cleanup_packages siblings None cap_150 decline_first = Done s
    ∧ removed_names (trace s)
      = file_full_name <$> accepted decline_first 0 (evicted s)
    ∧ asked s = 2%nat.
Proof.
  eassert (Hdone : cleanup_packages siblings None cap_150 decline_first
                   = Done _) by (vm_compute; reflexivity).
  eexists. split; [exact Hdone|].
  exact (removals_by_mode _ _ _ _ _ Hdone eq_refl).
Defined.

Lemma removed_files_of_package_witness :
  ∃ f, f ∈ pkg_files interleaved
    ∧ file_full_name f = "u/pkg/1.0.0/linux-64/pkg-1.0.0-0.conda"
    ∧ ∀ l, Some "main" = Some l → l ∈ file_labels f.
Proof.
  eassert (Hdone : cleanup_packages interleaved (Some "main") cap_250_force
                                    never = Done _)
    by (vm_compute; reflexivity).
  apply (removed_files_of_package _ _ _ _ _ _ Hdone).
  vm_compute. repeat constructor.
Defined.

Lemma dry_run_shows_forced_run_witness :
  same_outcome
    (cleanup_packages (help_example_triplet one_kilobyte hour) None
                      priority_cap_1 never)
    (cleanup_packages (help_example_triplet one_kilobyte hour) None
                      priority_cap_1_force never).
Proof.
  apply (dry_run_shows_forced_run (help_example_triplet one_kilobyte hour)
           None priority_cap_1 priority_cap_1_force never never);
    [by repeat split|reflexivity..].
Defined.

Lemma max_priority_alone_witness :
  ∃ s, cleanup_packages (help_example_triplet one_kilobyte hour) None
                        priority_cap_1 never = Done s
    ∧ ∀ f, f ∈ files s
           ↔ f ∈ classify
                   (pkg_versions (help_example_triplet one_kilobyte hour))
                   (pkg_files (help_example_triplet one_kilobyte hour))
             ∧ at_most 1 f = false.
Proof.
  destruct (max_priority_alone (help_example_triplet one_kilobyte hour) None
              priority_cap_1 never 1)
    as (s & Hdone & _ & Hleft); [reflexivity..| |by eauto].
  apply Forall_forall. repeat constructor.
Defined.

Lemma low_cap_keeps_top_builds_witness :
  ∃ s g, cleanup_packages (help_example_triplet one_kilobyte hour) None
                          priority_cap_1 never = Done s
    ∧ g ∈ files s
    ∧ file_version g = "2.1.0dev1"
    ∧ build_number g = 1.
Proof.
  destruct (low_cap_keeps_top_builds
              (help_example_triplet one_kilobyte hour) None
              priority_cap_1 never 1
              (conda_file "2.1.0dev1" 0 "pkg_v2.1dev1_bld-0" 1024 (hour 4)))
    as (s & g & Hdone & Hg & Hv & Hb);
    [reflexivity|reflexivity|reflexivity|lia| | |].
  - apply Forall_forall. repeat constructor.
  - vm_compute. repeat constructor.
  - exists s, g. split; [exact Hdone|]. split; [exact Hg|].
    split; [exact Hv|]. rewrite Hb. vm_compute. reflexivity.
Defined.

Lemma last_dev_of_spec_witness :
  ∃ before after,
    ["1.0.0dev2"; "1.0.0dev1"; "1.0.0"] = before ++ "1.0.0dev1" :: after
    ∧ is_dev_version "1.0.0dev1" = true
    ∧ ∀ w, w ∈ after → is_dev_version w = false.
Proof.
  apply (proj2 (last_dev_of_spec ["1.0.0dev2"; "1.0.0dev1"; "1.0.0"])).
  reflexivity.
Defined.

Lemma main_exception_iff_witness :
  ∃ msg, main one_registry no_limit_args never = MainException msg.
Proof.
  apply (proj1 (main_exception_iff one_registry no_limit_args never)).
  repeat split; reflexivity.
Defined.

Lemma main_size_cap_witness :
  ∃ s, main one_registry dpbench_args never = MainRan (Done s)
    ∧ (files s = [] ∨ total_size_of (files s) ≤ 128 * 1024 * 1024).
Proof.
  eassert (Hmain : main one_registry dpbench_args never = MainRan (Done _))
    by (vm_compute; reflexivity).
  eexists. split; [exact Hmain|].
  apply (main_size_cap _ _ _ _ _ Hmain). reflexivity.
Defined.
